(** * Password generator: the generation core of [script.js]

    A shallow embedding of the random selector ([secureRandomInt]), the
    password builder ([buildCharPool], [generatePlain], [generateHandler])
    and the strength estimator ([estimateEntropyBits],
    [strengthFromEntropy]) of the page script, followed by the properties
    the specification states about them.

    Conventions of the embedding.
    - A JavaScript string is a [string]; every character the script itself
      puts in a pool is ASCII, so one [ascii] is one UTF-16 code unit.
    - Integer-valued JavaScript numbers are [Z]; [number] adds [NaN] where
      the script can meet it ([parseInt]).  The entropy estimate is a real
      number and a value of [Math.random] a rational: arithmetic is exact,
      [Math.log2] is the base-2 logarithm, rounding to double is not
      modelled.
    - The page (checkboxes, length controls, history) and the two random
      sources are one explicit state, [Page].  The values that
      [crypto.getRandomValues] and [Math.random] will deliver are tapes in
      that state; a call that needs a value when its tape is empty has the
      outcome [Starved].  *)

From Stdlib Require Import ZArith QArith Qround List String Ascii Bool Lia.
From Stdlib Require Import DecimalString.
From Stdlib Require Import Reals Lra.
From Stdlib Require Lqa.
Import ListNotations.

Local Open Scope string_scope.
Local Open Scope Z_scope.

(** ** The fragment of JavaScript the script relies on *)

Module JS.

(** Numbers on the length path: an integer or [NaN]. *)
Inductive number : Type :=
| NaN : number
| Num : Z -> number.

(** Thrown values, by constructor and message. *)
Inductive exn : Type :=
| Error : string -> exn
| RangeError : string -> exn.

(** ToBoolean on a number: [NaN] and zero are falsy. *)
Definition truthy (x : number) : bool :=
  match x with
  | NaN => false
  | Num z => negb (z =? 0)
  end.

(** [a || b] on numbers. *)
Definition or_else (a b : number) : number :=
  if truthy a then a else b.

Definition Math_min (a b : number) : number :=
  match a, b with
  | Num x, Num y => Num (Z.min x y)
  | _, _ => NaN
  end.

Definition Math_max (a b : number) : number :=
  match a, b with
  | Num x, Num y => Num (Z.max x y)
  | _, _ => NaN
  end.

(** String(x) for the numbers above. *)
Definition to_string (x : number) : string :=
  match x with
  | NaN => "NaN"
  | Num z => NilZero.string_of_int (Z.to_int z)
  end.

(** [s.length]. *)
Definition length (s : string) : Z := Z.of_nat (String.length s).

(** [s.charAt(i)]: the one-character string at [i], or the empty string
    when [i] is not an index of [s]. *)
Definition charAt (s : string) (i : Z) : string :=
  if i <? 0 then ""
  else match String.get (Z.to_nat i) s with
       | Some c => String c ""
       | None => ""
       end.

(** [parts.join('')]. *)
Definition join (parts : list string) : string :=
  fold_right String.append "" parts.

(** [s.replace(re, by)] for a global regular expression that is a single
    character class [re]: every matching character is replaced. *)
Fixpoint replace (re : ascii -> bool) (by_ : string) (s : string) : string :=
  match s with
  | EmptyString => EmptyString
  | String c rest =>
      if re c then String.append by_ (replace re by_ rest)
      else String c (replace re by_ rest)
  end.

(** [new Set(s).size]: the number of distinct characters of [s]. *)
Definition Set_size (s : string) : Z :=
  Z.of_nat (List.length (nodup ascii_dec (list_ascii_of_string s))).

(** What a [Uint32Array] cell holds after a store. *)
Definition ToUint32 (w : Z) : Z := w mod 2 ^ 32.

(** *** [parseInt(s)] with no radix argument *)

Definition is_white (c : ascii) : bool :=
  let n := nat_of_ascii c in
  ((9 <=? n) && (n <=? 13) || (n =? 32) || (n =? 160))%nat.

Fixpoint skip_white (s : string) : string :=
  match s with
  | String c rest => if is_white c then skip_white rest else s
  | EmptyString => s
  end.

(** The value of [c] as a digit, whatever the radix. *)
Definition digit_value (c : ascii) : option Z :=
  let n := Z.of_nat (nat_of_ascii c) in
  if (48 <=? n) && (n <=? 57) then Some (n - 48)
  else if (97 <=? n) && (n <=? 122) then Some (n - 87)
  else if (65 <=? n) && (n <=? 90) then Some (n - 55)
  else None.

(** Reads the longest prefix of radix-[r] digits; [acc] is the value read
    so far, [None] while no digit has been read. *)
Fixpoint digits (r : Z) (s : string) (acc : option Z) : option Z :=
  match s with
  | EmptyString => acc
  | String c rest =>
      match digit_value c with
      | Some d =>
          if d <? r
          then digits r rest (Some (match acc with
                                    | Some a => a * r + d
                                    | None => d
                                    end))
          else acc
      | None => acc
      end
  end.

Definition parseInt (s : string) : number :=
  let s1 := skip_white s in
  let '(sign, s2) :=
    match s1 with
    | String "-" rest => (-1, rest)
    | String "+" rest => (1, rest)
    | _ => (1, s1)
    end in
  let '(radix, s3) :=
    match s2 with
    | String "0" (String "x" rest) => (16, rest)
    | String "0" (String "X" rest) => (16, rest)
    | _ => (10, s2)
    end in
  match digits radix s3 None with
  | Some v => Num (sign * v)
  | None => NaN
  end.

(** [Math.log2] on a real argument. *)
Definition Math_log2 (x : R) : R := (ln x / ln 2)%R.

End JS.

Coercion JS.Num : Z >-> JS.number.

(** ** The page state *)

Record Page : Type := mkPage {
  (** [window.crypto && window.crypto.getRandomValues] is usable *)
  crypto_available : bool;
  (** the words successive [crypto.getRandomValues(arr)] calls write *)
  crypto_draws : list Z;
  (** the values successive [Math.random()] calls return, each in [0, 1) *)
  random_draws : list Q;
  (** [.checked] of the five option boxes *)
  optUpper : bool;
  optLower : bool;
  optNumbers : bool;
  optSymbols : bool;
  optExclude : bool;
  (** [.value] of the two length controls and of the output field *)
  lengthNumber : string;
  lengthRange : string;
  passwordInput : string;
  (** script variables *)
  lastGenerated : string;
  history : list string;
  (** what [Log.warn] / [Log.error] and [alert] have shown so far *)
  console : list string;
  alerts : list string
}.

Definition set_crypto_draws (t : list Z) (p : Page) : Page :=
  mkPage (crypto_available p) t (random_draws p)
         (optUpper p) (optLower p) (optNumbers p) (optSymbols p) (optExclude p)
         (lengthNumber p) (lengthRange p) (passwordInput p)
         (lastGenerated p) (history p) (console p) (alerts p).

Definition set_random_draws (t : list Q) (p : Page) : Page :=
  mkPage (crypto_available p) (crypto_draws p) t
         (optUpper p) (optLower p) (optNumbers p) (optSymbols p) (optExclude p)
         (lengthNumber p) (lengthRange p) (passwordInput p)
         (lastGenerated p) (history p) (console p) (alerts p).

Definition set_lengths (v : string) (p : Page) : Page :=
  mkPage (crypto_available p) (crypto_draws p) (random_draws p)
         (optUpper p) (optLower p) (optNumbers p) (optSymbols p) (optExclude p)
         v v (passwordInput p)
         (lastGenerated p) (history p) (console p) (alerts p).

Definition set_passwordInput (v : string) (p : Page) : Page :=
  mkPage (crypto_available p) (crypto_draws p) (random_draws p)
         (optUpper p) (optLower p) (optNumbers p) (optSymbols p) (optExclude p)
         (lengthNumber p) (lengthRange p) v
         (lastGenerated p) (history p) (console p) (alerts p).

Definition set_lastGenerated (v : string) (p : Page) : Page :=
  mkPage (crypto_available p) (crypto_draws p) (random_draws p)
         (optUpper p) (optLower p) (optNumbers p) (optSymbols p) (optExclude p)
         (lengthNumber p) (lengthRange p) (passwordInput p)
         v (history p) (console p) (alerts p).

Definition set_history (h : list string) (p : Page) : Page :=
  mkPage (crypto_available p) (crypto_draws p) (random_draws p)
         (optUpper p) (optLower p) (optNumbers p) (optSymbols p) (optExclude p)
         (lengthNumber p) (lengthRange p) (passwordInput p)
         (lastGenerated p) h (console p) (alerts p).

Definition log_line (msg : string) (p : Page) : Page :=
  mkPage (crypto_available p) (crypto_draws p) (random_draws p)
         (optUpper p) (optLower p) (optNumbers p) (optSymbols p) (optExclude p)
         (lengthNumber p) (lengthRange p) (passwordInput p)
         (lastGenerated p) (history p) (console p ++ [msg]) (alerts p).

Definition show_alert (msg : string) (p : Page) : Page :=
  mkPage (crypto_available p) (crypto_draws p) (random_draws p)
         (optUpper p) (optLower p) (optNumbers p) (optSymbols p) (optExclude p)
         (lengthNumber p) (lengthRange p) (passwordInput p)
         (lastGenerated p) (history p) (console p) (alerts p ++ [msg]).

(** ** Computations over the page *)

Inductive Outcome (A : Type) : Type :=
| Return : A -> Page -> Outcome A      (* normal completion *)
| Throw : JS.exn -> Page -> Outcome A  (* an exception reached the caller *)
| Starved : Outcome A.                 (* a random tape ran out *)

Arguments Return {A} _ _.
Arguments Throw {A} _ _.
Arguments Starved {A}.

Definition M (A : Type) : Type := Page -> Outcome A.

Definition ret {A} (a : A) : M A := fun p => Return a p.

Definition bind {A B} (m : M A) (k : A -> M B) : M B :=
  fun p =>
    match m p with
    | Return a p' => k a p'
    | Throw e p' => Throw e p'
    | Starved => Starved
    end.

Definition throw {A} (e : JS.exn) : M A := fun p => Throw e p.

Definition gets {A} (f : Page -> A) : M A := fun p => Return (f p) p.

Definition modify (f : Page -> Page) : M unit := fun p => Return tt (f p).

(** [try { body } catch (err) { handler(err) }]. *)
Definition try_catch {A} (body : M A) (handler : JS.exn -> M A) : M A :=
  fun p =>
    match body p with
    | Throw e p' => handler e p'
    | other => other
    end.

Notation "x <- m ;; k" := (bind m (fun x => k))
  (at level 61, m at next level, right associativity).
Notation "m ;;; k" := (bind m (fun _ => k))
  (at level 61, right associativity).

(** [for (let i = 0; i < n; i++) out[i] = body()], the cells in index
    order. *)
Fixpoint for_fill {A} (n : nat) (body : M A) : M (list A) :=
  match n with
  | O => ret []
  | S k => c <- body ;; rest <- for_fill k body ;; ret (c :: rest)
  end.

(** ** The script *)

Module Log.
Definition warn (msg : string) : M unit := modify (log_line msg).
Definition error (msg : string) : M unit := modify (log_line msg).
End Log.

(** *** Constants *)

Module CHAR.
Definition upper : string := "ABCDEFGHIJKLMNOPQRSTUVWXYZ".
Definition lower : string := "abcdefghijklmnopqrstuvwxyz".
Definition numbers : string := "0123456789".
Definition symbols : string := "!@#$%^&*()_+[]{}|;:,.<>?".
End CHAR.

(** The character class of [/[O0Il]/g]. *)
Definition AMBIGUOUS (c : ascii) : bool :=
  match c with
  | "O"%char | "0"%char | "I"%char | "l"%char => true
  | _ => false
  end.

(** *** Secure random integer *)

Definition maxUint : Z := 0xFFFFFFFF.

Definition bucketSize (range : Z) : Z := (maxUint + 1) / range.

Definition limit (range : Z) : Z := bucketSize range * range.

(** [do { getRandomValues(arr); rand = arr[0]; } while (rand >= limit)] on
    the tape of words still to come: the accepted value and the tape left,
    or [None] when every word of the tape is rejected. *)
Fixpoint draw_below (lim : Z) (tape : list Z) : option (Z * list Z) :=
  match tape with
  | [] => None
  | w :: tape' =>
      let rand := JS.ToUint32 w in
      if lim <=? rand then draw_below lim tape' else Some (rand, tape')
  end.

Definition rejection_loop (lim : Z) : M Z :=
  fun p =>
    match draw_below lim (crypto_draws p) with
    | Some (rand, tape') => Return rand (set_crypto_draws tape' p)
    | None => Starved
    end.

(** [Math.random()]. *)
Definition Math_random : M Q :=
  fun p =>
    match random_draws p with
    | x :: tape' => Return x (set_random_draws tape' p)
    | [] => Starved
    end.

Definition fallback_warning : string :=
  "crypto.getRandomValues not available — falling back to Math.random (less secure).".

(** In the branch without the cryptographic source the product
    [x * range] is the exact one; the script rounds it to a double before
    [Math.floor]. *)
Definition secureRandomInt (range : Z) : M Z :=
  avail <- gets crypto_available ;;
  if negb avail then
    Log.warn fallback_warning ;;;
    x <- Math_random ;;
    ret (Qfloor (x * inject_Z range))
  else if range <=? 0 then throw (JS.Error "Range must be > 0")
  else
    rand <- rejection_loop (limit range) ;;
    ret (Z.rem rand range).

(** *** Password generation *)

Definition buildCharPool : M string :=
  let pool := "" in
  upper <- gets optUpper ;;
  let pool := if upper then pool ++ CHAR.upper else pool in
  lower <- gets optLower ;;
  let pool := if lower then pool ++ CHAR.lower else pool in
  numbers <- gets optNumbers ;;
  let pool := if numbers then pool ++ CHAR.numbers else pool in
  symbols <- gets optSymbols ;;
  let pool := if symbols then pool ++ CHAR.symbols else pool in
  exclude <- gets optExclude ;;
  let pool := if exclude then JS.replace AMBIGUOUS "" pool else pool in
  ret pool.

Definition EmptyPool : JS.exn := JS.Error "No character sets selected".

Definition InvalidRange : JS.exn := JS.Error "Range must be > 0".

(** What [new Array(length)] throws when [length] is not an array length
    (an integer in [0, 2^32 - 1]). *)
Definition InvalidArrayLength : JS.exn := JS.RangeError "Invalid array length".

Definition generatePlain (length : JS.number) : M string :=
  pool <- buildCharPool ;;
  if String.eqb pool "" then throw EmptyPool
  else
    match length with
    | JS.NaN => throw InvalidArrayLength
    | JS.Num n =>
        if (n <? 0) || (maxUint <? n) then throw InvalidArrayLength
        else
          out <- for_fill (Z.to_nat n)
                   (idx <- secureRandomInt (JS.length pool) ;;
                    ret (JS.charAt pool idx)) ;;
          ret (JS.join out)
    end.

(** *** Entropy estimate and strength label *)

Definition estimateEntropyBits (password : string) : M R :=
  pool <- buildCharPool ;;
  let poolSize := JS.Set_size pool in
  if poolSize =? 0 then ret 0%R
  else ret (IZR (JS.length password) * JS.Math_log2 (IZR poolSize))%R.

Record Strength : Type := mkStrength {
  label : string;
  color : string;
  pct : Z
}.

Definition strengthFromEntropy (bits : R) : Strength :=
  if Rlt_dec bits 28 then mkStrength "Very weak" "#ff6b6b" 20
  else if Rlt_dec bits 40 then mkStrength "Weak" "#ff8a4a" 40
  else if Rlt_dec bits 60 then mkStrength "Moderate" "#ffd54d" 60
  else if Rlt_dec bits 80 then mkStrength "Strong" "#8be58b" 80
  else mkStrength "Very strong" "#2bd39b" 100.

(** *** The generate button

    [scrambleReveal], [updateStrengthUI] and [renderHistory] only schedule
    animation frames and write to display elements that [Page] does not
    carry; they complete normally and leave [Page] as it is. *)

Definition scrambleReveal (finalText : string) (duration : Z) : M unit :=
  ret tt.

Definition updateStrengthUI (pw : string) : M unit :=
  bits <- estimateEntropyBits pw ;;
  let s := strengthFromEntropy bits in
  ret tt.

Definition renderHistory : M unit := ret tt.

Definition pushHistory (pw : string) : M unit :=
  if String.eqb pw "" then ret tt
  else
    h <- gets history ;;
    if match h with
       | first :: _ => String.eqb first pw
       | [] => false
       end
    then ret tt
    else
      let h := pw :: h in
      let h := if (8 <? Z.of_nat (List.length h)) then removelast h else h in
      modify (set_history h) ;;;
      renderHistory.

Definition alert (msg : string) : M unit := modify (show_alert msg).

Definition generateHandler (fastReveal : bool) : M unit :=
  try_catch
    (number_value <- gets lengthNumber ;;
     range_value <- gets lengthRange ;;
     let length :=
       JS.Math_max (JS.Num 6)
         (JS.Math_min (JS.Num 64)
            (JS.or_else (JS.parseInt number_value)
                        (JS.parseInt range_value))) in
     modify (set_lengths (JS.to_string length)) ;;;
     pw <- generatePlain length ;;
     modify (set_lastGenerated pw) ;;;
     (if fastReveal then modify (set_passwordInput pw)
      else scrambleReveal pw 700) ;;;
     updateStrengthUI pw ;;;
     pushHistory pw)
    (fun err =>
       Log.error "Generate failed:" ;;;
       alert "Failed to generate — please select at least one character set.").

(** ** Statements in the specification's words *)

(** The four character classes in their declared order. *)
Inductive CharacterClass : Type := Uppercase | Lowercase | Digit | Symbol.

Definition declared_order : list CharacterClass :=
  [Uppercase; Lowercase; Digit; Symbol].

Definition class_chars (c : CharacterClass) : string :=
  match c with
  | Uppercase => CHAR.upper
  | Lowercase => CHAR.lower
  | Digit => CHAR.numbers
  | Symbol => CHAR.symbols
  end.

Definition class_enabled (p : Page) (c : CharacterClass) : bool :=
  match c with
  | Uppercase => optUpper p
  | Lowercase => optLower p
  | Digit => optNumbers p
  | Symbol => optSymbols p
  end.

(** The characters of a string, in order. *)
Definition chars (s : string) : list ascii := list_ascii_of_string s.

(** The ambiguous set {O, 0, I, l}. *)
Definition ambiguous_set : list ascii :=
  ["O"%char; "0"%char; "I"%char; "l"%char].

Definition in_ambiguous_set (c : ascii) : bool :=
  existsb (Ascii.eqb c) ambiguous_set.

(** Pool of the data model: the enabled classes concatenated in declared
    order, then the optional ambiguous filter. *)
Definition spec_pool (p : Page) : list ascii :=
  let all :=
    flat_map (fun c => chars (class_chars c))
             (filter (class_enabled p) declared_order) in
  if optExclude p
  then filter (fun c => negb (in_ambiguous_set c)) all
  else all.

(** The pool the page's options select, as [buildCharPool] computes it. *)
Definition pool_of (p : Page) : string :=
  match buildCharPool p with
  | Return pool _ => pool
  | _ => ""
  end.

(** The same page with the exclude-ambiguous box set to [b]. *)
Definition with_exclude (b : bool) (p : Page) : Page :=
  mkPage (crypto_available p) (crypto_draws p) (random_draws p)
         (optUpper p) (optLower p) (optNumbers p) (optSymbols p) b
         (lengthNumber p) (lengthRange p) (passwordInput p)
         (lastGenerated p) (history p) (console p) (alerts p).

(** Clamp into the supported bound [6, 64]. *)
Definition clamp_length (n : Z) : Z :=
  if n <? 6 then 6 else if 64 <? n then 64 else n.

(** The five strength categories. *)
Inductive StrengthCategory : Type :=
  VeryWeak | Weak | Moderate | Strong | VeryStrong.

Definition category_label (c : StrengthCategory) : string :=
  match c with
  | VeryWeak => "Very weak"
  | Weak => "Weak"
  | Moderate => "Moderate"
  | Strong => "Strong"
  | VeryStrong => "Very strong"
  end.

(** The accepted 32-bit values that [secureRandomInt range] maps to [v]:
    [v], [v + range], [v + 2 * range], ..., one for each whole bucket. *)
Definition preimages (range v : Z) : list Z :=
  map (fun k => v + Z.of_nat k * range)
      (seq 0 (Z.to_nat (bucketSize range))).

(** A word of the tape that the rejection loop keeps. *)
Definition accepted (lim w : Z) : bool := JS.ToUint32 w <? lim.

(** A value [Math.random] may return. *)
Definition unit_interval (x : Q) : bool :=
  Qle_bool 0 x && negb (Qle_bool 1 x).

(** The tapes of [p] hold what [n] successive calls [secureRandomInt(range)]
    consume: [n] accepted words when the cryptographic source is there,
    [n] values of [Math.random] otherwise. *)
Definition supplies (n : nat) (range : Z) (p : Page) : bool :=
  if crypto_available p
  then (n <=? List.length (filter (accepted (limit range)) (crypto_draws p)))%nat
  else (n <=? List.length (random_draws p))%nat
       && forallb unit_interval (firstn n (random_draws p)).

(** The length the generate button asks for: the number box when it holds
    a non-zero integer, the slider otherwise. *)
Definition requested_length (p : Page) : JS.number :=
  match JS.parseInt (lengthNumber p) with
  | JS.Num n => if n =? 0 then JS.parseInt (lengthRange p) else JS.Num n
  | JS.NaN => JS.parseInt (lengthRange p)
  end.

(** A page with nothing generated yet. *)
Definition fresh_page (crypto : bool) (words : list Z) (randoms : list Q)
    (upper lower numbers symbols exclude : bool)
    (number_value range_value : string) : Page :=
  mkPage crypto words randoms upper lower numbers symbols exclude
         number_value range_value "" "" [] [] [].

(** [p'] is [p] except for the random tapes and the console. *)
Definition consumed (p p' : Page) : Prop :=
  p' = mkPage (crypto_available p) (crypto_draws p') (random_draws p')
              (optUpper p) (optLower p) (optNumbers p) (optSymbols p)
              (optExclude p)
              (lengthNumber p) (lengthRange p) (passwordInput p)
              (lastGenerated p) (history p) (console p') (alerts p).

(** ** The rest of the script *)

(** *** What [updateStrengthUI] writes *)

(** The colour given to the logo lock, from the percentage of the strength
    record. *)
Definition lockColor (s : Strength) : string :=
  if 80 <? pct s then "#2bd39b"
  else if 60 <? pct s then "#8be58b"
  else if 40 <? pct s then "#ffd54d"
  else "#ff8a4a".

(** *** History *)

(** The history array after [pushHistory(pw)], from the array before. *)
Definition history_push (pw : string) (h : list string) : list string :=
  if String.eqb pw "" then h
  else if match h with
          | first :: _ => String.eqb first pw
          | [] => false
          end
       then h
       else
         let h := pw :: h in
         if (8 <? Z.of_nat (List.length h)) then removelast h else h.

(** [pushHistory] on each password of a list, in order. *)
Fixpoint pushHistory_each (pws : list string) : M unit :=
  match pws with
  | [] => ret tt
  | pw :: rest => pushHistory pw ;;; pushHistory_each rest
  end.

(** *** Length controls: the listeners [init] installs *)

Definition set_lengthNumber (v : string) (p : Page) : Page :=
  mkPage (crypto_available p) (crypto_draws p) (random_draws p)
         (optUpper p) (optLower p) (optNumbers p) (optSymbols p) (optExclude p)
         v (lengthRange p) (passwordInput p)
         (lastGenerated p) (history p) (console p) (alerts p).

(** The [input] listener of the slider: the event target is the slider. *)
Definition lengthRange_oninput : M unit :=
  value <- gets lengthRange ;;
  modify (set_lengthNumber value).

(** The [change] listener of the number box: the event target is the
    number box. *)
Definition lengthNumber_onchange : M unit :=
  value <- gets lengthNumber ;;
  let v := JS.or_else (JS.parseInt value) (JS.Num 16) in
  let v := JS.Math_max (JS.Num 6) (JS.Math_min (JS.Num 64) v) in
  modify (set_lengths (JS.to_string v)).

(** *** Scramble reveal: the frame callback *)

(** [s[i]] appended to a string: the character at [i], and the text
    [undefined] when [i] is not an index of [s]. *)
Definition index_text (s : string) (i : Z) : string :=
  if (0 <=? i) && (i <? JS.length s) then JS.charAt s i else "undefined".

(** [buildCharPool() || 'abcdefghijklmnopqrstuvwxyz0123456789'], evaluated
    once when [scrambleReveal] is called. *)
Definition scramble_pool : M string :=
  pool <- buildCharPool ;;
  ret (if String.eqb pool "" then "abcdefghijklmnopqrstuvwxyz0123456789"
       else pool).

(** [Math.min(1, x)]. *)
Definition min_one (x : Q) : Q := if Qle_bool 1 x then 1%Q else x.

(** The [for] loop of [frame], from index [i], with [todo] indices left. *)
Fixpoint scramble_loop (todo : nat) (i revealCount : Z)
    (finalText pool out : string) : M string :=
  match todo with
  | O => ret out
  | S k =>
      piece <- (if i <? revealCount then ret (index_text finalText i)
                else idx <- secureRandomInt (JS.length pool) ;;
                     ret (JS.charAt pool idx)) ;;
      scramble_loop k (i + 1) revealCount finalText pool (out ++ piece)%string
  end.

(** [frame(now)] for the closure variables [start], [duration],
    [finalText] and [pool] ([duration] not zero).  The result tells
    whether another frame is requested.  The elapsed share [t] and the
    number of revealed characters are the exact ones; the script computes
    them in doubles. *)
Definition scramble_frame (start duration : Q) (finalText pool : string)
    (now : Q) : M bool :=
  let length := JS.length finalText in
  let t := min_one ((now - start) / duration) in
  let revealCount := Qfloor (t * inject_Z length) in
  out <- scramble_loop (Z.to_nat length) 0 revealCount finalText pool "" ;;
  modify (set_passwordInput out) ;;;
  if negb (Qle_bool 1 t) then ret true
  else modify (set_passwordInput finalText) ;;; ret false.

(** *** Theme toggle *)

(** The stored theme and the places [applyTheme] writes to. *)
Record Theme : Type := mkTheme {
  (** [localStorage] item [pw-theme]; [None] when absent *)
  pw_theme : option string;
  (** custom property [--bg-1] of the root element; [None] when removed *)
  bg_1 : option string;
  body_background : string;
  color_scheme : string;
  (** [aria-pressed] of the theme button *)
  theme_pressed : string
}.

Definition applyTheme (theme : string) (s : Theme) : Theme :=
  if String.eqb theme "light" then
    mkTheme (pw_theme s) (Some "#f6f7fb")
            "linear-gradient(120deg,#f8fafc,#eef2ff 50%, #fff)"
            "light" "true"
  else
    mkTheme (pw_theme s) None
            "linear-gradient(120deg, #071124 0%, #0b1220 40%, #141225 100%)"
            "dark" "false".

(** The [click] listener of the theme button. *)
Definition themeToggle_click (s : Theme) : Theme :=
  let next :=
    if match pw_theme s with
       | Some v => String.eqb v "light"
       | None => false
       end
    then "dark" else "light" in
  applyTheme next
    (mkTheme (Some next) (bg_1 s) (body_background s) (color_scheme s)
             (theme_pressed s)).

(** The theme step of [init]:
    [applyTheme(localStorage.getItem('pw-theme') || 'dark')]. *)
Definition init_theme (s : Theme) : Theme :=
  let saved :=
    match pw_theme s with
    | Some v => if String.eqb v "" then "dark" else v
    | None => "dark"
    end in
  applyTheme saved s.

(** *** Reveal button *)

Record Reveal : Type := mkReveal {
  reveal : bool;
  (** [aria-pressed] of the reveal button *)
  reveal_pressed : string;
  (** [type] of the password field *)
  passwordInput_type : string;
  (** [style.filter] of the eye icon *)
  eyeIcon_filter : string
}.

Definition toggleReveal (s : Reveal) : Reveal :=
  let reveal := negb (reveal s) in
  let pressed := if reveal then "true" else "false" in
  if reveal
  then mkReveal reveal pressed "text"
                "drop-shadow(0 4px 12px rgba(36,224,255,0.12))"
  else mkReveal reveal pressed "text" "none".

(** ** Statements about the rest of the script *)

(** The pool size the options give: 26, 26, 10 and 24 characters per
    class, less the ambiguous ones (two uppercase, one lowercase, one
    digit) when they are excluded. *)
Definition pool_size_formula (p : Page) : Z :=
  let b (x : bool) := if x then 1 else 0 in
  26 * b (optUpper p) + 26 * b (optLower p)
  + 10 * b (optNumbers p) + 24 * b (optSymbols p)
  - b (optExclude p)
    * (2 * b (optUpper p) + b (optLower p) + b (optNumbers p)).

(** [n] more lines on the console. *)
Definition log_lines (msgs : list string) (p : Page) : Page :=
  mkPage (crypto_available p) (crypto_draws p) (random_draws p)
         (optUpper p) (optLower p) (optNumbers p) (optSymbols p) (optExclude p)
         (lengthNumber p) (lengthRange p) (passwordInput p)
         (lastGenerated p) (history p) (console p ++ msgs) (alerts p).

(** The page the generate button leaves when generation threw: the length
    controls already written, the failure logged and the alert shown. *)
Definition failed_page (shown : string) (p : Page) : Page :=
  show_alert "Failed to generate — please select at least one character set."
    (log_line "Generate failed:" (set_lengths shown p)).

(** The length the generate button computes from the two controls. *)
Definition handler_length (p : Page) : JS.number :=
  JS.Math_max (JS.Num 6)
    (JS.Math_min (JS.Num 64)
       (JS.or_else (JS.parseInt (lengthNumber p))
                   (JS.parseInt (lengthRange p)))).

(** The page the generate button leaves when [generatePlain] returned
    [pw] on page [p]. *)
Definition generated_page (fastReveal : bool) (pw : string) (p : Page) : Page :=
  set_history (history_push pw (history p))
    (if fastReveal then set_passwordInput pw (set_lastGenerated pw p)
     else set_lastGenerated pw p).

(** What the number box's [change] listener takes for an entry reading
    [x]. *)
Definition change_default (x : JS.number) : Z :=
  match x with
  | JS.Num z => if z =? 0 then 16 else z
  | JS.NaN => 16
  end.

(** The strength category read off integers: the number of passwords of
    length [L] over [P] symbols against 2^28, 2^40, 2^60 and 2^80. *)
Definition category_by_count (P L : Z) : StrengthCategory :=
  if P ^ L <? 2 ^ 28 then VeryWeak
  else if P ^ L <? 2 ^ 40 then Weak
  else if P ^ L <? 2 ^ 60 then Moderate
  else if P ^ L <? 2 ^ 80 then Strong
  else VeryStrong.

(** ** Pool construction *)

Lemma buildCharPool_run (p : Page) :
  buildCharPool p = Return (pool_of p) p.
Proof. reflexivity. Qed.

Lemma pool_of_spec_pool (p : Page) : chars (pool_of p) = spec_pool p.
Proof.
  destruct p as [ca cd rd u l n s e ln lr pin lg h co al].
  unfold pool_of, buildCharPool, spec_pool, class_enabled, bind, gets, ret.
  cbn [optUpper optLower optNumbers optSymbols optExclude].
  destruct u, l, n, s, e; vm_compute; reflexivity.
Qed.

Lemma pool_of_with_exclude (b : bool) (p : Page) :
  chars (pool_of (with_exclude b p)) =
  let plain := chars (pool_of (with_exclude false p)) in
  if b then filter (fun c => negb (in_ambiguous_set c)) plain else plain.
Proof.
  destruct p as [ca cd rd u l n s e ln lr pin lg h co al].
  destruct b, u, l, n, s; vm_compute; reflexivity.
Qed.

Lemma chars_length (s : string) :
  JS.length s = Z.of_nat (List.length (chars s)).
Proof.
  unfold JS.length, chars. f_equal.
  induction s as [|c s IH]; simpl; congruence.
Qed.

Lemma in_ambiguous_set_In (c : ascii) :
  in_ambiguous_set c = true <-> In c ambiguous_set.
Proof.
  unfold in_ambiguous_set. rewrite existsb_exists. split.
  - intros [x [Hin Heq]]. apply Ascii.eqb_eq in Heq. now subst.
  - intros Hin. exists c. split; [assumption | apply Ascii.eqb_refl].
Qed.

Lemma filter_length_bound {A} (f : A -> bool) (l : list A) :
  (List.length (filter f l) <= List.length l)%nat.
Proof.
  induction l as [|a l IH]; simpl; [lia|].
  destruct (f a); simpl; lia.
Qed.

Lemma nodup_eq_NoDup (l : list ascii) : nodup ascii_dec l = l -> NoDup l.
Proof. intros H. rewrite <- H. apply NoDup_nodup. Qed.

Lemma pool_of_NoDup (p : Page) : NoDup (chars (pool_of p)).
Proof.
  destruct p as [ca cd rd u l n s e ln lr pin lg h co al].
  apply nodup_eq_NoDup.
  destruct u, l, n, s, e; vm_compute; reflexivity.
Qed.

Lemma pool_of_empty_iff (p : Page) :
  pool_of p = "" <->
  optUpper p = false /\ optLower p = false /\
  optNumbers p = false /\ optSymbols p = false.
Proof.
  destruct p as [ca cd rd u l n s e ln lr pin lg h co al].
  cbn [optUpper optLower optNumbers optSymbols].
  destruct u, l, n, s, e; vm_compute; split;
    solve [ intros; repeat split; reflexivity
          | intros H; discriminate H
          | intros (H1 & H2 & H3 & H4); discriminate ].
Qed.

(** C9. Building the pool is deterministic and order-stable: a call returns
    a pool and leaves the page as it was, so a second call on the same
    options returns the same string character for character; and that pool
    is the concatenation of the enabled classes in the declared order
    uppercase, lowercase, numbers, symbols, with the ambiguous filter
    applied last. *)
Theorem buildCharPool_deterministic_order_stable (p : Page) :
  exists pool : string,
    buildCharPool p = Return pool p /\
    (first <- buildCharPool ;; second <- buildCharPool ;; ret (first, second)) p
      = Return (pool, pool) p /\
    chars pool = spec_pool p.
Proof.
  exists (pool_of p). split; [apply buildCharPool_run|]. split.
  - unfold bind. rewrite buildCharPool_run. reflexivity.
  - apply pool_of_spec_pool.
Qed.

(** C6. With the exclude-ambiguous box ticked the pool is the pool of the
    same options without it, minus the characters O, 0, I and l: the other
    characters are kept, in order, and none is added; so the pool never
    gets longer. *)
Theorem exclude_ambiguous_removes_exactly (p : Page) :
  let plain := pool_of (with_exclude false p) in
  let excluded := pool_of (with_exclude true p) in
  buildCharPool (with_exclude false p) = Return plain (with_exclude false p) /\
  buildCharPool (with_exclude true p) = Return excluded (with_exclude true p) /\
  chars excluded = filter (fun c => negb (in_ambiguous_set c)) (chars plain) /\
  (forall c, In c (chars excluded) <->
             In c (chars plain) /\ ~ In c ambiguous_set) /\
  JS.length excluded <= JS.length plain.
Proof.
  intros plain excluded.
  assert (Heq : chars excluded
                = filter (fun c => negb (in_ambiguous_set c)) (chars plain))
    by apply (pool_of_with_exclude true p).
  split; [apply buildCharPool_run|].
  split; [apply buildCharPool_run|].
  split; [exact Heq|].
  split.
  - intros c. rewrite Heq, filter_In. split.
    + intros [Hin Hneg]. split; [assumption|]. intros Hamb.
      apply in_ambiguous_set_In in Hamb. rewrite Hamb in Hneg. discriminate.
    + intros [Hin Hnot]. split; [assumption|].
      destruct (in_ambiguous_set c) eqn:E; [|reflexivity].
      apply in_ambiguous_set_In in E. contradiction.
  - rewrite !chars_length, Heq. apply inj_le, filter_length_bound.
Qed.

(** C10. The pool [buildCharPool] returns has no repeated character: the
    four class strings laid end to end are duplicate-free (each class is,
    and no two share a character) and the ambiguous filter only removes.
    Hence the distinct-symbol count the strength estimator takes is the
    pool's length. *)
Theorem pool_has_no_repeated_character (p : Page) :
  buildCharPool p = Return (pool_of p) p /\
  NoDup (chars (pool_of p)) /\
  NoDup (flat_map (fun c => chars (class_chars c)) declared_order) /\
  JS.Set_size (pool_of p) = JS.length (pool_of p) /\
  (forall pw : string,
     estimateEntropyBits pw p =
     Return (if JS.length (pool_of p) =? 0 then 0%R
             else (IZR (JS.length pw)
                   * JS.Math_log2 (IZR (JS.length (pool_of p))))%R) p).
Proof.
  assert (Hsize : JS.Set_size (pool_of p) = JS.length (pool_of p)).
  { unfold JS.Set_size. rewrite chars_length. unfold chars.
    rewrite nodup_fixed_point; [reflexivity | apply pool_of_NoDup]. }
  split; [apply buildCharPool_run|].
  split; [apply pool_of_NoDup|].
  split; [apply nodup_eq_NoDup; vm_compute; reflexivity|].
  split; [exact Hsize|].
  intros pw. unfold estimateEntropyBits, bind.
  rewrite buildCharPool_run, Hsize.
  destruct (JS.length (pool_of p) =? 0); reflexivity.
Qed.

(** ** The random selector *)

Lemma ToUint32_range (w : Z) : 0 <= JS.ToUint32 w < 2 ^ 32.
Proof. unfold JS.ToUint32. apply Z.mod_pos_bound. lia. Qed.

Lemma bucketSize_pos (range : Z) :
  0 < range <= 2 ^ 32 -> 1 <= bucketSize range.
Proof.
  intros H. unfold bucketSize, maxUint.
  apply Z.div_le_lower_bound; lia.
Qed.

Lemma limit_bounds (range : Z) :
  0 < range <= 2 ^ 32 ->
  0 < limit range <= 2 ^ 32 /\ 2 ^ 32 - limit range < range.
Proof.
  intros H. pose proof (bucketSize_pos range H) as Hb.
  unfold limit in *. unfold bucketSize, maxUint in *.
  change (4294967295 + 1) with (2 ^ 32) in *.
  pose proof (Z.mul_div_le (2 ^ 32) range ltac:(lia)).
  pose proof (Z.mul_succ_div_gt (2 ^ 32) range ltac:(lia)).
  nia.
Qed.

Lemma limit_beyond_32_bits (range : Z) : 2 ^ 32 < range -> limit range = 0.
Proof.
  intros H. unfold limit, bucketSize, maxUint.
  rewrite Z.div_small; lia.
Qed.

Lemma draw_below_all_rejected (lim : Z) (tape : list Z) :
  Forall (fun w => lim <= JS.ToUint32 w) tape -> draw_below lim tape = None.
Proof.
  induction 1 as [|w tape Hw _ IH]; simpl; [reflexivity|].
  destruct (Z.leb_spec lim (JS.ToUint32 w)); [exact IH | lia].
Qed.

Lemma draw_below_first_accepted (lim : Z) (rejected : list Z) (w : Z) (rest : list Z) :
  Forall (fun r => lim <= JS.ToUint32 r) rejected ->
  JS.ToUint32 w < lim ->
  draw_below lim (rejected ++ w :: rest) = Some (JS.ToUint32 w, rest).
Proof.
  induction 1 as [|r rejected Hr _ IH]; intros Hw; simpl.
  - destruct (Z.leb_spec lim (JS.ToUint32 w)); [lia | reflexivity].
  - destruct (Z.leb_spec lim (JS.ToUint32 r)); [auto | lia].
Qed.

Lemma draw_below_counts (lim : Z) (tape : list Z) (n : nat) :
  (S n <= List.length (filter (accepted lim) tape))%nat ->
  exists rand rest,
    draw_below lim tape = Some (rand, rest) /\
    0 <= rand < lim /\
    (n <= List.length (filter (accepted lim) rest))%nat.
Proof.
  induction tape as [|w tape IH]; simpl; [lia|].
  unfold accepted at 1.
  destruct (Z.ltb_spec (JS.ToUint32 w) lim) as [Hlt|Hge]; simpl; intros Hn.
  - destruct (Z.leb_spec lim (JS.ToUint32 w)); [lia|].
    exists (JS.ToUint32 w), tape.
    pose proof (ToUint32_range w). repeat split; try lia.
  - destruct (Z.leb_spec lim (JS.ToUint32 w)); [|lia]. apply IH, Hn.
Qed.

Lemma preimages_spec (range v u : Z) :
  0 < range <= 2 ^ 32 -> 0 <= v < range ->
  In u (preimages range v) <->
  0 <= u < 2 ^ 32 /\ u < limit range /\ u mod range = v.
Proof.
  intros Hr Hv. pose proof (bucketSize_pos range Hr) as Hb.
  pose proof (limit_bounds range Hr) as [Hlim _].
  unfold preimages. rewrite in_map_iff. split.
  - intros (k & <- & Hk). apply in_seq in Hk.
    assert (Hk' : 0 <= Z.of_nat k < bucketSize range) by lia.
    assert (v + Z.of_nat k * range < limit range) by (unfold limit; nia).
    repeat split; try nia.
    rewrite Z.mod_add by lia. apply Z.mod_small. exact Hv.
  - intros ([Hu0 _] & Hlt & Hmod).
    pose proof (Z.div_mod u range ltac:(lia)) as Hdm.
    assert (Hq0 : 0 <= u / range) by (apply Z.div_pos; lia).
    assert (Hq : u / range < bucketSize range) by (unfold limit in Hlt; nia).
    exists (Z.to_nat (u / range)). split.
    + rewrite Z2Nat.id by exact Hq0. lia.
    + apply in_seq. lia.
Qed.

Lemma preimages_NoDup (range v : Z) : 0 < range -> NoDup (preimages range v).
Proof.
  intros Hr. unfold preimages.
  apply NoDup_map_NoDup_ForallPairs; [|apply seq_NoDup].
  intros j k _ _ Heq. nia.
Qed.

Lemma preimages_length (range v : Z) :
  List.length (preimages range v) = Z.to_nat (bucketSize range).
Proof. unfold preimages. now rewrite length_map, length_seq. Qed.

Lemma secureRandomInt_crypto (range : Z) (p : Page) :
  crypto_available p = true -> 0 < range ->
  secureRandomInt range p =
  match draw_below (limit range) (crypto_draws p) with
  | Some (rand, rest) => Return (rand mod range) (set_crypto_draws rest p)
  | None => Starved
  end.
Proof.
  intros Hc Hr. unfold secureRandomInt, bind, gets, rejection_loop, ret.
  rewrite Hc. cbn [negb]. destruct (Z.leb_spec range 0); [lia|].
  destruct (draw_below (limit range) (crypto_draws p)) as [[rand rest]|] eqn:E;
    [|reflexivity].
  rewrite Z.rem_mod_nonneg; [reflexivity | | lia].
  clear - E. revert E. induction (crypto_draws p) as [|w tape IH]; simpl.
  - discriminate.
  - destruct (limit range <=? JS.ToUint32 w); [exact IH|].
    intros [= <- _]. apply ToUint32_range.
Qed.

Lemma secureRandomInt_invalid_range (range : Z) (p : Page) :
  crypto_available p = true -> range <= 0 ->
  secureRandomInt range p = Throw InvalidRange p.
Proof.
  intros Hc Hr. unfold secureRandomInt, bind, gets, throw.
  rewrite Hc. cbn [negb]. destruct (Z.leb_spec range 0); [reflexivity | lia].
Qed.

Lemma secureRandomInt_fallback (range : Z) (p : Page) :
  crypto_available p = false ->
  secureRandomInt range p =
  match random_draws p with
  | x :: rest =>
      Return (Qfloor (x * inject_Z range))
             (set_random_draws rest (log_line fallback_warning p))
  | [] => Starved
  end.
Proof.
  intros Hc. unfold secureRandomInt, bind, gets, Log.warn, modify, Math_random, ret.
  rewrite Hc. cbn [negb]. cbn [random_draws log_line].
  destruct (random_draws p); reflexivity.
Qed.

Lemma unit_interval_scaled (x : Q) (range : Z) :
  unit_interval x = true -> 0 < range ->
  0 <= Qfloor (x * inject_Z range) < range.
Proof.
  unfold unit_interval. intros Hx Hr.
  apply andb_true_iff in Hx. destruct Hx as [H0 H1].
  apply Qle_bool_iff in H0.
  assert (Hlt : (x < 1)%Q).
  { apply Qnot_le_lt. intros Hle. apply Qle_bool_iff in Hle.
    rewrite Hle in H1. discriminate. }
  assert (Hrq : (inject_Z 0 < inject_Z range)%Q) by (rewrite <- Zlt_Qlt; exact Hr).
  change (inject_Z 0) with 0%Q in Hrq.
  split.
  - change 0 with (Qfloor 0). apply Qfloor_resp_le.
    apply Qmult_le_0_compat; [exact H0 | apply Qlt_le_weak, Hrq].
  - rewrite Zlt_Qlt. eapply Qle_lt_trans; [apply Qfloor_le|].
    rewrite <- (Qmult_1_l (inject_Z range)) at 2.
    apply Qmult_lt_compat_r; assumption.
Qed.

(** C1, as amended. With the cryptographic source available and
    0 < range <= 2^32, [secureRandomInt range] works on
    limit = floor(2^32 / range) * range, the largest multiple of range not
    above 2^32; it discards every 32-bit draw >= limit and returns the
    first draw below limit modulo range, a value in [0, range); it returns
    as soon as the source has delivered one such draw.  Every value of
    [0, range) has exactly floor(2^32 / range) accepted draws mapped to it,
    the same number for all, so a uniform source gives a uniform result. *)
Theorem secureRandomInt_rejection_sampling (range : Z) (p : Page) :
  0 < range <= 2 ^ 32 ->
  crypto_available p = true ->
  limit range = 2 ^ 32 / range * range /\
  (0 < limit range <= 2 ^ 32 /\ 2 ^ 32 - limit range < range) /\
  (forall rejected w rest,
     crypto_draws p = (rejected ++ w :: rest)%list ->
     Forall (fun r => limit range <= JS.ToUint32 r) rejected ->
     JS.ToUint32 w < limit range ->
     secureRandomInt range p
       = Return (JS.ToUint32 w mod range) (set_crypto_draws rest p) /\
     0 <= JS.ToUint32 w mod range < range) /\
  (supplies 1 range p = true ->
   exists v p', secureRandomInt range p = Return v p' /\ 0 <= v < range) /\
  (forall v, 0 <= v < range ->
     NoDup (preimages range v) /\
     List.length (preimages range v) = Z.to_nat (bucketSize range) /\
     (forall u, In u (preimages range v) <->
                0 <= u < 2 ^ 32 /\ u < limit range /\ u mod range = v)) /\
  1 <= bucketSize range.
Proof.
  intros Hr Hc.
  split; [reflexivity|].
  split; [apply limit_bounds, Hr|].
  split.
  { intros rejected w rest Htape Hrej Hw.
    rewrite secureRandomInt_crypto by (assumption || lia).
    rewrite Htape, (draw_below_first_accepted _ _ _ _ Hrej Hw).
    split; [reflexivity | apply Z.mod_pos_bound; lia]. }
  split.
  { unfold supplies. rewrite Hc. intros Hn. apply Nat.leb_le in Hn.
    destruct (draw_below_counts _ _ _ Hn) as (rand & rest & Hd & Hrand & _).
    rewrite secureRandomInt_crypto by (assumption || lia). rewrite Hd.
    eexists _, _. split; [reflexivity | apply Z.mod_pos_bound; lia]. }
  split.
  { intros v Hv. split; [apply preimages_NoDup; lia|].
    split; [apply preimages_length|].
    intros u. apply preimages_spec; assumption. }
  apply bucketSize_pos, Hr.
Qed.

Lemma secureRandomInt_rejection_sampling_witness :
  secureRandomInt 3 (fresh_page true [4294967295; 7; 3] []
                                false true false false false "" "")
  = Return 1 (fresh_page true [3] [] false true false false false "" "").
Proof.
  pose (p := fresh_page true [4294967295; 7; 3] []
                        false true false false false "" "").
  destruct (secureRandomInt_rejection_sampling 3 p ltac:(lia) eq_refl)
    as (_ & _ & Hfirst & _).
  destruct (Hfirst [4294967295] 7 [3] eq_refl) as [Hrun _].
  - repeat constructor. vm_compute. discriminate.
  - reflexivity.
  - exact Hrun.
Defined.

(** C1, as stated, fails above 2^32: for range = 2^32 + 1 the limit is 0,
    every draw is discarded, and the call never returns, whatever the
    source delivers. *)
Lemma secureRandomInt_never_returns_beyond_32_bits :
  0 < 2 ^ 32 + 1 /\
  limit (2 ^ 32 + 1) = 0 /\
  forall words : list Z,
    secureRandomInt (2 ^ 32 + 1)
      (fresh_page true words [] false true false false false "" "")
    = Starved.
Proof.
  split; [lia|]. split; [reflexivity|]. intros words.
  rewrite secureRandomInt_crypto by (reflexivity || lia).
  cbn [crypto_draws fresh_page].
  rewrite draw_below_all_rejected; [reflexivity|].
  apply Forall_forall. intros w _.
  rewrite limit_beyond_32_bits by lia. apply ToUint32_range.
Qed.

(** C3 at the failing input. Without the cryptographic source the call
    returns before the range check: for every range, 0 included, it
    returns floor(x * range) for the next [Math.random] value x, and for
    range = 0 that is 0; nothing is thrown. *)
Theorem secureRandomInt_fallback_skips_range_check
    (x : Q) (randoms : list Q) (words : list Z)
    (upper lower numbers symbols exclude : bool)
    (number_value range_value : string) :
  let p := fresh_page false words (x :: randoms)
                      upper lower numbers symbols exclude
                      number_value range_value in
  (forall range : Z,
     secureRandomInt range p =
     Return (Qfloor (x * inject_Z range))
            (set_random_draws randoms (log_line fallback_warning p))) /\
  secureRandomInt 0 p =
    Return 0 (set_random_draws randoms (log_line fallback_warning p)).
Proof.
  intros p.
  assert (H : forall range : Z,
             secureRandomInt range p =
             Return (Qfloor (x * inject_Z range))
                    (set_random_draws randoms (log_line fallback_warning p)))
    by (intros range; apply secureRandomInt_fallback; reflexivity).
  split; [exact H|].
  rewrite H. f_equal.
  destruct x as [num den]. unfold Qfloor, Qmult, inject_Z. cbn [Qnum Qden].
  rewrite Z.mul_0_r. apply Z.div_0_l. lia.
Qed.

(** ** The password builder *)

Lemma consumed_refl (p : Page) : consumed p p.
Proof. destruct p; reflexivity. Qed.

Lemma consumed_trans (p q r : Page) :
  consumed p q -> consumed q r -> consumed p r.
Proof. unfold consumed. intros Hq Hr. rewrite Hr, Hq. reflexivity. Qed.

Lemma consumed_pool_of (p p' : Page) : consumed p p' -> pool_of p' = pool_of p.
Proof. unfold consumed. intros ->. reflexivity. Qed.

Lemma pool_of_length_bound (p : Page) : JS.length (pool_of p) <= 86.
Proof.
  destruct p as [ca cd rd u l n s e ln lr pin lg h co al].
  destruct u, l, n, s, e; vm_compute; discriminate.
Qed.

Lemma pool_of_nonempty_length (p : Page) :
  pool_of p <> "" -> 0 < JS.length (pool_of p) <= 2 ^ 32.
Proof.
  intros Hne. pose proof (pool_of_length_bound p).
  split; [|lia]. unfold JS.length.
  destruct (pool_of p); [contradiction | simpl; lia].
Qed.

Lemma secureRandomInt_supplied (range : Z) (n : nat) (p : Page) :
  0 < range <= 2 ^ 32 ->
  supplies (S n) range p = true ->
  exists v p',
    secureRandomInt range p = Return v p' /\
    0 <= v < range /\ supplies n range p' = true /\ consumed p p'.
Proof.
  intros Hr. unfold supplies.
  destruct (crypto_available p) eqn:Hc; intros Hs.
  - apply Nat.leb_le in Hs.
    destruct (draw_below_counts _ _ _ Hs) as (rand & rest & Hd & Hrand & Hn).
    rewrite secureRandomInt_crypto by (assumption || lia). rewrite Hd.
    eexists _, _. split; [reflexivity|].
    split; [apply Z.mod_pos_bound; lia|].
    split; [|unfold consumed, set_crypto_draws; cbn; rewrite Hc; reflexivity].
    cbn. rewrite Hc. apply Nat.leb_le. exact Hn.
  - rewrite secureRandomInt_fallback by assumption.
    destruct (random_draws p) as [|x rest] eqn:Ht; [discriminate|].
    cbn in Hs. apply andb_true_iff in Hs. destruct Hs as [Hlen Hall].
    apply andb_true_iff in Hall. destruct Hall as [Hx Hall].
    eexists _, _. split; [reflexivity|].
    split; [apply unit_interval_scaled; [assumption | lia]|].
    split; [|unfold consumed, set_random_draws, log_line; cbn;
             rewrite Hc; reflexivity].
    cbn. rewrite Hc, Hall, andb_true_r. exact Hlen.
Qed.

Lemma for_fill_supplied (range : Z) (n : nat) :
  0 < range <= 2 ^ 32 ->
  forall p : Page,
    supplies n range p = true ->
    exists idxs p',
      for_fill n (secureRandomInt range) p = Return idxs p' /\
      List.length idxs = n /\
      Forall (fun i => 0 <= i < range) idxs /\
      consumed p p'.
Proof.
  intros Hr. induction n as [|n IH]; intros p Hs.
  - exists [], p. repeat split; [constructor | apply consumed_refl].
  - destruct (secureRandomInt_supplied range n p Hr Hs)
      as (v & p1 & Hrun & Hv & Hs1 & Hc1).
    destruct (IH p1 Hs1) as (idxs & p2 & Hrest & Hlen & Hall & Hc2).
    exists (v :: idxs), p2. cbn [for_fill]. unfold bind at 1. rewrite Hrun.
    unfold bind at 1. rewrite Hrest. unfold ret.
    repeat split; [simpl; congruence | constructor; assumption
                  | eapply consumed_trans; eassumption].
Qed.

(** Mapping over the cells as they are filled. *)
Lemma for_fill_map {A B} (f : A -> B) (m : M A) (n : nat) (p : Page) :
  for_fill n (x <- m ;; ret (f x)) p =
  match for_fill n m p with
  | Return l p' => Return (map f l) p'
  | Throw e p' => Throw e p'
  | Starved => Starved
  end.
Proof.
  revert p. induction n as [|n IH]; intros p; [reflexivity|].
  cbn [for_fill]. unfold bind, ret in *.
  destruct (m p) as [a p1|e p1|]; try reflexivity.
  rewrite IH. destruct (for_fill n m p1); reflexivity.
Qed.

Lemma for_fill_throws {A} (m : M A) (P : JS.exn -> Prop) :
  (forall p e p', m p = Throw e p' -> P e) ->
  forall n p e p', for_fill n m p = Throw e p' -> P e.
Proof.
  intros Hm. induction n as [|n IH]; intros p e p'; [discriminate|].
  cbn [for_fill]. unfold bind at 1.
  destruct (m p) as [a p1|e1 p1|] eqn:E; try discriminate.
  - unfold bind. destruct (for_fill n m p1) as [l p2|e2 p2|] eqn:E2;
      try discriminate.
    intros [= <- _]. eapply IH, E2.
  - intros [= <- _]. eapply Hm, E.
Qed.

Lemma secureRandomInt_throws (range : Z) (p p' : Page) (e : JS.exn) :
  secureRandomInt range p = Throw e p' -> e = InvalidRange.
Proof.
  destruct (crypto_available p) eqn:Hc.
  - destruct (Z.leb_spec range 0) as [Hle|Hgt].
    + rewrite secureRandomInt_invalid_range by assumption. now intros [= <- _].
    + rewrite secureRandomInt_crypto by assumption.
      destruct (draw_below _ _) as [[? ?]|]; discriminate.
  - rewrite secureRandomInt_fallback by assumption.
    destruct (random_draws p); discriminate.
Qed.

Lemma generatePlain_empty_pool (length : JS.number) (p : Page) :
  pool_of p = "" -> generatePlain length p = Throw EmptyPool p.
Proof.
  intros He. unfold generatePlain, bind. rewrite buildCharPool_run, He.
  reflexivity.
Qed.

Lemma generatePlain_nonempty_pool (length : JS.number) (p : Page) :
  pool_of p <> "" ->
  generatePlain length p =
  match length with
  | JS.NaN => Throw InvalidArrayLength p
  | JS.Num n =>
      if (n <? 0) || (maxUint <? n) then Throw InvalidArrayLength p
      else
        match for_fill (Z.to_nat n)
                       (secureRandomInt (JS.length (pool_of p))) p with
        | Return idxs p' =>
            Return (JS.join (map (JS.charAt (pool_of p)) idxs)) p'
        | Throw e p' => Throw e p'
        | Starved => Starved
        end
  end.
Proof.
  intros Hne. unfold generatePlain. unfold bind at 1.
  rewrite buildCharPool_run.
  destruct (String.eqb_spec (pool_of p) "") as [He|_]; [contradiction|].
  destruct length as [|len]; [reflexivity|].
  destruct ((len <? 0) || (maxUint <? len)); [reflexivity|].
  unfold bind at 1. rewrite for_fill_map.
  destruct (for_fill _ _ p); reflexivity.
Qed.

Lemma charAt_index (pool : string) (i : Z) :
  0 <= i < JS.length pool ->
  exists c, JS.charAt pool i = String c "" /\ In c (chars pool).
Proof.
  unfold JS.charAt, JS.length. intros [H0 Hlt].
  destruct (Z.ltb_spec i 0); [lia|].
  assert (Hn : (Z.to_nat i < String.length pool)%nat) by lia.
  clear - Hn. revert pool Hn.
  induction (Z.to_nat i) as [|k IH]; intros [|c pool] Hn; simpl in *; try lia.
  - exists c. auto.
  - destruct (IH pool ltac:(lia)) as (c' & Hc' & Hin). exists c'.
    split; [exact Hc' | right; exact Hin].
Qed.

Lemma join_charAt (pool : string) (idxs : list Z) :
  Forall (fun i => 0 <= i < JS.length pool) idxs ->
  JS.length (JS.join (map (JS.charAt pool) idxs)) = Z.of_nat (List.length idxs) /\
  Forall (fun c => In c (chars pool))
         (chars (JS.join (map (JS.charAt pool) idxs))).
Proof.
  induction 1 as [|i idxs Hi _ [IHlen IHin]]; [split; [reflexivity|constructor]|].
  destruct (charAt_index pool i Hi) as (c & Hc & Hin).
  cbn [map JS.join fold_right]. rewrite Hc. cbn [String.append].
  split.
  - unfold JS.length in *. cbn [String.length List.length]. unfold JS.join in IHlen. lia.
  - constructor; assumption.
Qed.

Lemma generatePlain_supplied (p : Page) (n : Z) :
  pool_of p <> "" ->
  0 <= n <= maxUint ->
  supplies (Z.to_nat n) (JS.length (pool_of p)) p = true ->
  exists idxs p',
    for_fill (Z.to_nat n) (secureRandomInt (JS.length (pool_of p))) p
      = Return idxs p' /\
    generatePlain (JS.Num n) p
      = Return (JS.join (map (JS.charAt (pool_of p)) idxs)) p' /\
    Z.of_nat (List.length idxs) = n /\
    Forall (fun i => 0 <= i < JS.length (pool_of p)) idxs /\
    consumed p p'.
Proof.
  intros Hne Hn Hs.
  destruct (for_fill_supplied _ _ (pool_of_nonempty_length p Hne) p Hs)
    as (idxs & p' & Hrun & Hlen & Hall & Hcons).
  exists idxs, p'. split; [exact Hrun|]. split.
  - rewrite generatePlain_nonempty_pool by assumption.
    destruct (Z.ltb_spec n 0); [lia|].
    destruct (Z.ltb_spec maxUint n); [lia|].
    cbn [orb]. rewrite Hrun. reflexivity.
  - repeat split; try assumption; lia.
Qed.

Lemma for_fill_replay (range : Z) (p : Page) (idxs rest : list Z) :
  crypto_available p = true ->
  0 < range <= 2 ^ 32 ->
  Forall (fun i => 0 <= i < range) idxs ->
  for_fill (List.length idxs) (secureRandomInt range)
           (set_crypto_draws (idxs ++ rest) p)
  = Return idxs (set_crypto_draws rest p).
Proof.
  intros Hc Hr. pose proof (limit_bounds range Hr) as [Hlim Hgap].
  assert (Hge : range <= limit range).
  { pose proof (bucketSize_pos range Hr). unfold limit. nia. }
  induction 1 as [|i idxs Hi _ IH]; [reflexivity|].
  cbn [List.length for_fill app]. unfold bind at 1.
  rewrite secureRandomInt_crypto by (assumption || lia).
  cbn [crypto_draws set_crypto_draws draw_below].
  assert (Hu : JS.ToUint32 i = i) by (apply Z.mod_small; lia).
  rewrite Hu. destruct (Z.leb_spec (limit range) i); [lia|].
  rewrite Z.mod_small by lia.
  change (set_crypto_draws (idxs ++ rest)
            (set_crypto_draws (i :: idxs ++ rest) p))
    with (set_crypto_draws (idxs ++ rest) p).
  unfold bind at 1. rewrite IH. reflexivity.
Qed.

(** C2. [generatePlain] throws [EmptyPool] exactly when the four class
    boxes are all unticked; with any class ticked the pool is non-empty,
    with or without the exclude-ambiguous filter, and whatever else
    happens the call does not fail with [EmptyPool]. *)
Theorem EmptyPool_iff_all_classes_disabled (p : Page) (length : JS.number) :
  let all_disabled :=
    optUpper p = false /\ optLower p = false /\
    optNumbers p = false /\ optSymbols p = false in
  ((exists p', generatePlain length p = Throw EmptyPool p') <-> all_disabled) /\
  (pool_of (with_exclude true p) = "" <-> all_disabled) /\
  (pool_of (with_exclude false p) = "" <-> all_disabled).
Proof.
  intros all_disabled. split; [|split].
  - split.
    + intros [p' Hthrow]. apply pool_of_empty_iff.
      destruct (string_dec (pool_of p) "") as [He|Hne]; [exact He|].
      exfalso. rewrite generatePlain_nonempty_pool in Hthrow by exact Hne.
      destruct length as [|n]; [discriminate|].
      destruct ((n <? 0) || (maxUint <? n)); [discriminate|].
      destruct (for_fill _ _ p) as [idxs q|e q|] eqn:E; try discriminate.
      injection Hthrow as He _. subst e.
      assert (Habs : EmptyPool = InvalidRange).
      { eapply (for_fill_throws _ (fun e => e = InvalidRange)); [|exact E].
        intros q1 e1 q2. apply secureRandomInt_throws. }
      discriminate.
    + intros Hall. exists p. apply generatePlain_empty_pool.
      apply pool_of_empty_iff, Hall.
  - apply (pool_of_empty_iff (with_exclude true p)).
  - apply (pool_of_empty_iff (with_exclude false p)).
Qed.

(** C7, as amended. On a non-empty pool and for an integer length with
    0 <= length <= 2^32 - 1, [generatePlain length] makes [length]
    successive calls of the random selector on the pool's length, each
    giving an index in [0, pool.length), and returns the characters
    [pool.charAt(index)] in call order: a string of exactly [length]
    characters, all of them members of the pool.  Nothing constrains the
    indices among themselves: whatever indices the selector delivers,
    repeated or adjacent, the password is made of exactly those. *)
Theorem generatePlain_draws_from_pool (p : Page) (n : Z) :
  pool_of p <> "" ->
  0 <= n <= maxUint ->
  supplies (Z.to_nat n) (JS.length (pool_of p)) p = true ->
  (exists idxs p',
     for_fill (Z.to_nat n) (secureRandomInt (JS.length (pool_of p))) p
       = Return idxs p' /\
     generatePlain (JS.Num n) p
       = Return (JS.join (map (JS.charAt (pool_of p)) idxs)) p' /\
     Z.of_nat (List.length idxs) = n /\
     Forall (fun i => 0 <= i < JS.length (pool_of p)) idxs /\
     JS.length (JS.join (map (JS.charAt (pool_of p)) idxs)) = n /\
     Forall (fun c => In c (chars (pool_of p)))
            (chars (JS.join (map (JS.charAt (pool_of p)) idxs)))) /\
  (crypto_available p = true ->
   forall idxs : list Z,
     Z.of_nat (List.length idxs) = n ->
     Forall (fun i => 0 <= i < JS.length (pool_of p)) idxs ->
     generatePlain (JS.Num n) (set_crypto_draws idxs p)
     = Return (JS.join (map (JS.charAt (pool_of p)) idxs))
              (set_crypto_draws [] p)).
Proof.
  intros Hne Hn Hs. split.
  - destruct (generatePlain_supplied p n Hne Hn Hs)
      as (idxs & p' & Hfill & Hrun & Hlen & Hall & _).
    destruct (join_charAt (pool_of p) idxs Hall) as [Hjl Hjin].
    exists idxs, p'. repeat split; try assumption; lia.
  - intros Hc idxs Hlen Hall.
    rewrite generatePlain_nonempty_pool by exact Hne.
    destruct (Z.ltb_spec n 0); [lia|].
    destruct (Z.ltb_spec maxUint n); [lia|].
    cbn [orb].
    change (pool_of (set_crypto_draws idxs p)) with (pool_of p).
    rewrite <- Hlen, Nat2Z.id.
    pose proof (for_fill_replay (JS.length (pool_of p)) p idxs [] Hc
                  (pool_of_nonempty_length p Hne) Hall) as Hrep.
    rewrite app_nil_r in Hrep. rewrite Hrep. reflexivity.
Qed.

Lemma generatePlain_draws_from_pool_witness :
  generatePlain (JS.Num 3)
    (fresh_page true [1; 1; 25] [] false true false false false "" "")
  = Return "bbz" (fresh_page true [] [] false true false false false "" "").
Proof.
  pose (p := fresh_page true [1; 1; 25] [] false true false false false "" "").
  destruct (generatePlain_draws_from_pool p 3) as [_ Hany].
  - vm_compute. discriminate.
  - vm_compute. split; discriminate.
  - reflexivity.
  - apply (Hany eq_refl [1; 1; 25] eq_refl).
    repeat constructor; vm_compute; discriminate.
Defined.

(** C7, as stated, fails from 2^32 on: [new Array(length)] is the first
    thing done with the length and it throws for a length that is not an
    array length. *)
Lemma generatePlain_rejects_length_beyond_array_limit :
  0 <= 2 ^ 32 /\
  pool_of (fresh_page true [] [] false true false false false "" "")
    = CHAR.lower /\
  forall (words : list Z) (randoms : list Q) (crypto : bool),
    generatePlain (JS.Num (2 ^ 32))
      (fresh_page crypto words randoms false true false false false "" "")
    = Throw InvalidArrayLength
        (fresh_page crypto words randoms false true false false false "" "").
Proof.
  split; [lia|]. split; [reflexivity|]. intros words randoms crypto.
  rewrite generatePlain_nonempty_pool; [reflexivity|].
  vm_compute. discriminate.
Qed.

(** ** The generate button *)

Lemma estimateEntropyBits_run (pw : string) (p : Page) :
  exists bits : R, estimateEntropyBits pw p = Return bits p.
Proof.
  unfold estimateEntropyBits, bind. rewrite buildCharPool_run.
  destruct (JS.Set_size (pool_of p) =? 0); eexists; reflexivity.
Qed.

Lemma updateStrengthUI_run (pw : string) (p : Page) :
  updateStrengthUI pw p = Return tt p.
Proof.
  unfold updateStrengthUI, bind.
  destruct (estimateEntropyBits_run pw p) as [bits ->]. reflexivity.
Qed.

Lemma pushHistory_run (pw : string) (p : Page) :
  exists h : list string, pushHistory pw p = Return tt (set_history h p).
Proof.
  assert (Hsame : set_history (history p) p = p) by (destruct p; reflexivity).
  unfold pushHistory.
  destruct (String.eqb pw "").
  - exists (history p). rewrite Hsame. reflexivity.
  - unfold bind, gets.
    destruct (match history p with
              | first :: _ => String.eqb first pw
              | [] => false
              end).
    + exists (history p). rewrite Hsame. reflexivity.
    + eexists. reflexivity.
Qed.

Lemma clamp_length_max_min (n : Z) :
  Z.max 6 (Z.min 64 n) = clamp_length n.
Proof.
  unfold clamp_length.
  destruct (Z.ltb_spec n 6); [lia|]. destruct (Z.ltb_spec 64 n); lia.
Qed.

Lemma or_else_requested_length (p : Page) :
  JS.or_else (JS.parseInt (lengthNumber p)) (JS.parseInt (lengthRange p))
  = requested_length p.
Proof.
  unfold JS.or_else, JS.truthy, requested_length.
  destruct (JS.parseInt (lengthNumber p)) as [|z]; [reflexivity|].
  destruct (z =? 0); reflexivity.
Qed.

Lemma consumed_fields (p p' : Page) :
  consumed p p' ->
  lengthNumber p' = lengthNumber p /\ lengthRange p' = lengthRange p /\
  alerts p' = alerts p /\ history p' = history p.
Proof. unfold consumed. intros ->. repeat split. Qed.

(** C8, as amended. The generate button clamps the length it reads from the length
    controls into [6, 64]: below 6 it becomes 6, above 64 it becomes 64,
    in between it is kept.  No length makes the button refuse: it
    completes without an alert, writes the clamped length back to both
    controls, and the password it generates has the clamped length.
    The length read is the number box's when that parses to a non-zero
    integer and the slider's otherwise. *)
Theorem generateHandler_clamps_length (fastReveal : bool) (p : Page) (n : Z) :
  JS.or_else (JS.parseInt (lengthNumber p)) (JS.parseInt (lengthRange p))
    = JS.Num n ->
  pool_of p <> "" ->
  supplies (Z.to_nat (clamp_length n)) (JS.length (pool_of p)) p = true ->
  requested_length p = JS.Num n /\
  JS.Math_max (JS.Num 6) (JS.Math_min (JS.Num 64) (JS.Num n))
    = JS.Num (clamp_length n) /\
  6 <= clamp_length n <= 64 /\
  exists p',
    generateHandler fastReveal p = Return tt p' /\
    JS.length (lastGenerated p') = clamp_length n /\
    lengthNumber p' = JS.to_string (JS.Num (clamp_length n)) /\
    lengthRange p' = JS.to_string (JS.Num (clamp_length n)) /\
    alerts p' = alerts p.
Proof.
  intros Hreq Hne Hs.
  assert (Hclamp : JS.Math_max (JS.Num 6) (JS.Math_min (JS.Num 64) (JS.Num n))
                   = JS.Num (clamp_length n))
    by (cbn [JS.Math_max JS.Math_min]; now rewrite clamp_length_max_min).
  assert (Hbound : 6 <= clamp_length n <= 64)
    by (rewrite <- clamp_length_max_min; lia).
  split; [rewrite <- or_else_requested_length; exact Hreq|].
  split; [exact Hclamp|]. split; [exact Hbound|].
  set (shown := JS.to_string (JS.Num (clamp_length n))).
  destruct (generatePlain_supplied (set_lengths shown p) (clamp_length n))
    as (idxs & p2 & _ & Hrun & Hlen & Hall & Hcons);
    [exact Hne | unfold maxUint; lia | exact Hs |].
  destruct (join_charAt _ idxs Hall) as [Hjl _].
  destruct (consumed_fields _ _ Hcons) as (Hln & Hlr & Hal & _).
  set (pw := JS.join (map (JS.charAt (pool_of (set_lengths shown p))) idxs)) in *.
  set (p3 := if fastReveal
             then set_passwordInput pw (set_lastGenerated pw p2)
             else set_lastGenerated pw p2).
  destruct (pushHistory_run pw p3) as [h Hpush].
  exists (set_history h p3).
  split.
  - unfold generateHandler, try_catch.
    unfold bind at 1. unfold gets at 1.
    unfold bind at 1. unfold gets at 1.
    rewrite Hreq, Hclamp. fold shown.
    unfold bind at 1. unfold modify at 1.
    unfold bind at 1. rewrite Hrun.
    unfold bind at 1. unfold modify at 1.
    unfold bind at 1.
    replace ((if fastReveal then modify (set_passwordInput pw)
              else scrambleReveal pw 700) (set_lastGenerated pw p2))
      with (Return tt p3) by (unfold p3; destruct fastReveal; reflexivity).
    unfold bind at 1. rewrite updateStrengthUI_run, Hpush. reflexivity.
  - unfold p3. destruct fastReveal; cbn; (split; [lia|]);
      rewrite Hln, Hlr, Hal; repeat split.
Qed.

Lemma generateHandler_clamps_length_witness :
  exists p' : Page,
    generateHandler true
      (fresh_page true (repeat 7 64) [] false true false false false "100" "16")
    = Return tt p' /\
    JS.length (lastGenerated p') = 64 /\
    lengthNumber p' = "64".
Proof.
  pose (p := fresh_page true (repeat 7 64) []
                        false true false false false "100" "16").
  destruct (generateHandler_clamps_length true p 100)
    as (_ & _ & _ & p' & Hrun & Hlen & Hshown & _).
  - reflexivity.
  - vm_compute. discriminate.
  - reflexivity.
  - exists p'. split; [exact Hrun|]. split; [exact Hlen | exact Hshown].
Defined.

(** ** The strength estimator *)

Lemma ln_2_pos : (0 < ln 2)%R.
Proof. rewrite <- ln_1. apply ln_increasing; lra. Qed.

Lemma ln_pow_IZR (b : Z) (k : nat) :
  0 < b -> ln (IZR (b ^ Z.of_nat k)) = (INR k * ln (IZR b))%R.
Proof.
  intros Hb. rewrite <- pow_IZR. apply ln_pow.
  apply (IZR_lt 0 b Hb).
Qed.

(** Bounds on [k * log2 P] read off integer powers. *)
Lemma Math_log2_above (P : Z) (a k : nat) :
  0 < P -> 2 ^ Z.of_nat a < P ^ Z.of_nat k ->
  (INR a < INR k * JS.Math_log2 (IZR P))%R.
Proof.
  intros HP Hlt. pose proof ln_2_pos as H2.
  assert (H : (INR a * ln 2 < INR k * ln (IZR P))%R).
  { rewrite <- !ln_pow_IZR by lia.
    apply ln_increasing; [apply (IZR_lt 0); lia | apply IZR_lt, Hlt]. }
  unfold JS.Math_log2.
  apply Rmult_lt_reg_r with (ln 2); [exact H2|].
  replace (INR k * (ln (IZR P) / ln 2) * ln 2)%R with (INR k * ln (IZR P))%R
    by (field; lra).
  exact H.
Qed.

Lemma Math_log2_below (P : Z) (a k : nat) :
  0 < P -> P ^ Z.of_nat k < 2 ^ Z.of_nat a ->
  (INR k * JS.Math_log2 (IZR P) < INR a)%R.
Proof.
  intros HP Hlt. pose proof ln_2_pos as H2.
  assert (H : (INR k * ln (IZR P) < INR a * ln 2)%R).
  { rewrite <- !ln_pow_IZR by lia.
    apply ln_increasing; [apply (IZR_lt 0); lia | apply IZR_lt, Hlt]. }
  unfold JS.Math_log2.
  apply Rmult_lt_reg_r with (ln 2); [exact H2|].
  replace (INR k * (ln (IZR P) / ln 2) * ln 2)%R with (INR k * ln (IZR P))%R
    by (field; lra).
  exact H.
Qed.

(** 5.16 < log2 36 < 5.18, from 2^516 < 36^100 < 2^518. *)
Lemma Math_log2_36 :
  (5.16 < JS.Math_log2 36 < 5.18)%R.
Proof.
  pose proof (Math_log2_above 36 516 100 ltac:(lia) ltac:(vm_compute; reflexivity)) as Hlo.
  pose proof (Math_log2_below 36 518 100 ltac:(lia) ltac:(vm_compute; reflexivity)) as Hhi.
  rewrite !INR_IZR_INZ in Hlo, Hhi. cbn [Z.of_nat Pos.of_succ_nat Pos.succ] in Hlo, Hhi.
  lra.
Qed.

Lemma estimateEntropyBits_positive_pool (pw : string) (p : Page) :
  0 < JS.Set_size (pool_of p) ->
  estimateEntropyBits pw p =
  Return (IZR (JS.length pw) * JS.Math_log2 (IZR (JS.Set_size (pool_of p))))%R p.
Proof.
  intros HP. unfold estimateEntropyBits, bind. rewrite buildCharPool_run.
  destruct (Z.eqb_spec (JS.Set_size (pool_of p)) 0); [lia | reflexivity].
Qed.

(** C4. When the active pool has P > 0 distinct symbols,
    [estimateEntropyBits pw] is [pw.length * log2 P]; P counts the distinct
    characters of the pool [buildCharPool] returns; and the estimate is the
    same for any two passwords of the same length, whatever their
    characters. *)
Theorem estimateEntropyBits_length_times_log2 (p : Page) (pw : string) :
  0 < JS.Set_size (pool_of p) ->
  estimateEntropyBits pw p =
    Return (IZR (JS.length pw)
            * JS.Math_log2 (IZR (JS.Set_size (pool_of p))))%R p /\
  (exists distinct : list ascii,
     NoDup distinct /\
     (forall c, In c distinct <-> In c (chars (pool_of p))) /\
     JS.Set_size (pool_of p) = Z.of_nat (List.length distinct)) /\
  (forall pw' : string,
     JS.length pw' = JS.length pw ->
     estimateEntropyBits pw' p = estimateEntropyBits pw p).
Proof.
  intros HP. split; [apply estimateEntropyBits_positive_pool, HP|]. split.
  - exists (nodup ascii_dec (chars (pool_of p))).
    split; [apply NoDup_nodup|]. split; [intros c; apply nodup_In | reflexivity].
  - intros pw' Hlen.
    rewrite !estimateEntropyBits_positive_pool by exact HP.
    rewrite Hlen. reflexivity.
Qed.

Lemma estimateEntropyBits_length_times_log2_witness :
  estimateEntropyBits "k3v9q0xw2m"
    (fresh_page true [] [] false true true false false "" "")
  = Return (10 * JS.Math_log2 36)%R
      (fresh_page true [] [] false true true false false "" "").
Proof.
  pose (p := fresh_page true [] [] false true true false false "" "").
  assert (HP : 0 < JS.Set_size (pool_of p)) by (vm_compute; reflexivity).
  exact (proj1 (estimateEntropyBits_length_times_log2 p "k3v9q0xw2m" HP)).
Defined.

(** C5. [strengthFromEntropy] cuts the entropy axis at 28, 40, 60 and 80:
    below 28 Very weak, from 28 to below 40 Weak, from 40 to below 60
    Moderate, from 60 to below 80 Strong, from 80 on Very strong.  With
    only the lowercase and numbers classes ticked, a password of length 10
    is in category Moderate; and, the exclude-ambiguous box being
    unticked, the pool has 36 symbols and the estimate is 10 * log2 36
    bits, between 51.6 and 51.8. *)
Theorem strengthFromEntropy_thresholds :
  (forall bits : R,
     (bits < 28 /\
      strengthFromEntropy bits = mkStrength (category_label VeryWeak) "#ff6b6b" 20) \/
     (28 <= bits < 40 /\
      strengthFromEntropy bits = mkStrength (category_label Weak) "#ff8a4a" 40) \/
     (40 <= bits < 60 /\
      strengthFromEntropy bits = mkStrength (category_label Moderate) "#ffd54d" 60) \/
     (60 <= bits < 80 /\
      strengthFromEntropy bits = mkStrength (category_label Strong) "#8be58b" 80) \/
     (80 <= bits /\
      strengthFromEntropy bits = mkStrength (category_label VeryStrong) "#2bd39b" 100))%R
  /\
  (forall (p : Page) (pw : string),
     optUpper p = false -> optLower p = true ->
     optNumbers p = true -> optSymbols p = false ->
     JS.length pw = 10 ->
     exists bits : R,
       estimateEntropyBits pw p = Return bits p /\
       label (strengthFromEntropy bits) = category_label Moderate /\
       (optExclude p = false ->
        JS.length (pool_of p) = 36 /\
        JS.Set_size (pool_of p) = 36 /\
        bits = (10 * JS.Math_log2 36)%R /\
        (51.6 < bits < 51.8)%R)).
Proof.
  split.
  - intros bits. unfold strengthFromEntropy.
    destruct (Rlt_dec bits 28); [left; split; [lra | reflexivity]|].
    destruct (Rlt_dec bits 40); [right; left; split; [lra | reflexivity]|].
    destruct (Rlt_dec bits 60);
      [right; right; left; split; [lra | reflexivity]|].
    destruct (Rlt_dec bits 80);
      [right; right; right; left; split; [lra | reflexivity]|].
    right; right; right; right. split; [lra | reflexivity].
  - intros p pw Hu Hl Hn Hs Hlen.
    assert (Hpool : pool_of p = if optExclude p
                                then "abcdefghijkmnopqrstuvwxyz123456789"
                                else (CHAR.lower ++ CHAR.numbers)%string).
    { destruct p as [ca cd rd u l n s e ln lr pin lg h co al].
      cbn in Hu, Hl, Hn, Hs |- *. subst. destruct e; reflexivity. }
    assert (Hmoderate : forall bits : R,
               (40 <= bits < 60)%R ->
               label (strengthFromEntropy bits) = category_label Moderate).
    { intros bits Hb. unfold strengthFromEntropy.
      destruct (Rlt_dec bits 28); [lra|]. destruct (Rlt_dec bits 40); [lra|].
      destruct (Rlt_dec bits 60); [reflexivity | lra]. }
    destruct (optExclude p) eqn:He.
    + assert (Hsize : JS.Set_size (pool_of p) = 34)
        by (rewrite Hpool; reflexivity).
      exists (10 * JS.Math_log2 34)%R. split; [|split; [|discriminate]].
      * rewrite estimateEntropyBits_positive_pool by lia.
        rewrite Hsize, Hlen. reflexivity.
      * apply Hmoderate.
        pose proof (Math_log2_above 34 4 1 ltac:(lia) ltac:(vm_compute; reflexivity)) as Hlo.
        pose proof (Math_log2_below 34 6 1 ltac:(lia) ltac:(vm_compute; reflexivity)) as Hhi.
        rewrite !INR_IZR_INZ in Hlo, Hhi.
        cbn [Z.of_nat Pos.of_succ_nat Pos.succ] in Hlo, Hhi. lra.
    + assert (Hsize : JS.Set_size (pool_of p) = 36)
        by (rewrite Hpool; reflexivity).
      pose proof Math_log2_36 as Hlog.
      exists (10 * JS.Math_log2 36)%R. split; [|split].
      * rewrite estimateEntropyBits_positive_pool by lia.
        rewrite Hsize, Hlen. reflexivity.
      * apply Hmoderate. lra.
      * intros _. split; [rewrite Hpool; reflexivity|].
        split; [exact Hsize|]. split; [reflexivity | lra].
Qed.

Lemma strengthFromEntropy_thresholds_witness :
  label (strengthFromEntropy (10 * JS.Math_log2 36)%R) = "Moderate".
Proof.
  pose (p := fresh_page true [] [] false true true false false "" "").
  destruct (proj2 strengthFromEntropy_thresholds p "k3v9q0xw2m"
              eq_refl eq_refl eq_refl eq_refl eq_refl)
    as (bits & _ & Hlabel & Hscenario).
  destruct (Hscenario eq_refl) as (_ & _ & Hbits & _).
  rewrite <- Hbits. exact Hlabel.
Defined.

(** ** More on the random selector *)

Lemma limit_above_half (range : Z) :
  0 < range <= 2 ^ 32 -> 2 ^ 31 < limit range.
Proof.
  intros Hr. pose proof (limit_bounds range Hr) as [Hlim Hgap].
  pose proof (bucketSize_pos range Hr) as Hb.
  assert (Hge : range <= limit range) by (unfold limit; nia).
  lia.
Qed.

(** X1. For 0 < range <= 2^32 the rejection limit is above 2^31: fewer
    than half of the 32-bit values are ever rejected, and a draw of at most
    2^31 is accepted at once, the call returning it modulo range and
    taking that one word from the source. *)
Theorem secureRandomInt_rejects_under_half (range : Z) (p : Page) :
  0 < range <= 2 ^ 32 ->
  crypto_available p = true ->
  2 ^ 32 - limit range < 2 ^ 31 /\
  (forall (w : Z) (rest : list Z),
     crypto_draws p = w :: rest ->
     JS.ToUint32 w <= 2 ^ 31 ->
     secureRandomInt range p
     = Return (JS.ToUint32 w mod range) (set_crypto_draws rest p)).
Proof.
  intros Hr Hc. pose proof (limit_above_half range Hr) as Hhalf.
  split; [lia|]. intros w rest Htape Hw.
  rewrite secureRandomInt_crypto by (assumption || lia).
  rewrite Htape. cbn [draw_below].
  destruct (Z.leb_spec (limit range) (JS.ToUint32 w)); [lia | reflexivity].
Qed.

Lemma secureRandomInt_rejects_under_half_witness :
  secureRandomInt 86
    (fresh_page true [2147483648; 5] [] true true true true false "" "")
  = Return 8 (fresh_page true [5] [] true true true true false "" "").
Proof.
  pose (p := fresh_page true [2147483648; 5] [] true true true true false "" "").
  destruct (secureRandomInt_rejects_under_half 86 p ltac:(lia) eq_refl)
    as [_ Hfirst].
  apply (Hfirst 2147483648 [5] eq_refl). vm_compute. discriminate.
Defined.

(** X2. The only exception [secureRandomInt] raises is the range error,
    and it raises it exactly when the cryptographic source is available
    and range <= 0; the page is then untouched (no draw is taken, nothing
    is logged). *)
Theorem secureRandomInt_throw_iff (range : Z) (p p' : Page) (e : JS.exn) :
  secureRandomInt range p = Throw e p' <->
  crypto_available p = true /\ range <= 0 /\ e = InvalidRange /\ p' = p.
Proof.
  split.
  - destruct (crypto_available p) eqn:Hc.
    + destruct (Z.leb_spec range 0) as [Hle|Hgt].
      * rewrite secureRandomInt_invalid_range by assumption.
        intros [= <- <-]. auto.
      * rewrite secureRandomInt_crypto by assumption.
        destruct (draw_below _ _) as [[? ?]|]; discriminate.
    + rewrite secureRandomInt_fallback by assumption.
      destruct (random_draws p); discriminate.
  - intros (Hc & Hr & -> & ->). apply secureRandomInt_invalid_range; assumption.
Qed.

(** ** Where generation takes its randomness *)

Lemma log_lines_step (w : string) (k : nat) (rest : list Q) (x : Q) (p : Page) :
  random_draws p = x :: rest ->
  set_random_draws (skipn k rest)
    (log_lines (repeat w k) (set_random_draws rest (log_line w p)))
  = set_random_draws (skipn (S k) (random_draws p))
      (log_lines (repeat w (S k)) p).
Proof.
  intros Ht. rewrite Ht.
  unfold set_random_draws, log_lines, log_line. cbn.
  rewrite <- app_assoc. reflexivity.
Qed.

Lemma for_fill_fallback (range : Z) (n : nat) :
  forall p : Page,
    crypto_available p = false ->
    (n <= List.length (random_draws p))%nat ->
    for_fill n (secureRandomInt range) p
    = Return (map (fun x => Qfloor (x * inject_Z range))
                  (firstn n (random_draws p)))
             (set_random_draws (skipn n (random_draws p))
                (log_lines (repeat fallback_warning n) p)).
Proof.
  induction n as [|n IH]; intros p Hc Hn.
  - cbn. unfold ret. f_equal.
    destruct p; unfold set_random_draws, log_lines; cbn.
    rewrite app_nil_r. reflexivity.
  - destruct (random_draws p) as [|x rest] eqn:Ht; [simpl in Hn; lia|].
    cbn [for_fill]. unfold bind at 1.
    rewrite secureRandomInt_fallback by assumption. rewrite Ht.
    unfold bind at 1. rewrite IH; [|exact Hc | cbn; simpl in Hn; lia].
    unfold ret. cbn [random_draws set_random_draws log_line firstn map].
    f_equal. rewrite (log_lines_step fallback_warning n rest x p Ht), Ht.
    reflexivity.
Qed.

(** X3. Without the cryptographic source, generating a password of n
    characters takes exactly the next n values of [Math.random], one per
    character, and logs the fallback warning n times; the words of the
    cryptographic tape and the rest of the page are left alone. *)
Theorem generatePlain_fallback_consumes_and_warns (p : Page) (n : Z) :
  crypto_available p = false ->
  pool_of p <> "" ->
  0 <= n <= maxUint ->
  (Z.to_nat n <= List.length (random_draws p))%nat ->
  exists pw : string,
    generatePlain (JS.Num n) p
    = Return pw
        (set_random_draws (skipn (Z.to_nat n) (random_draws p))
           (log_lines (repeat fallback_warning (Z.to_nat n)) p)).
Proof.
  intros Hc Hne Hn Hlen.
  rewrite generatePlain_nonempty_pool by exact Hne.
  destruct (Z.ltb_spec n 0); [lia|]. destruct (Z.ltb_spec maxUint n); [lia|].
  cbn [orb]. rewrite for_fill_fallback by assumption.
  eexists. reflexivity.
Qed.

Lemma generatePlain_fallback_consumes_and_warns_witness :
  exists pw : string,
    generatePlain (JS.Num 2)
      (fresh_page false [9] [1 # 2; 0; 3 # 4]%Q
                  false false true false false "" "")
    = Return pw
        (log_lines [fallback_warning; fallback_warning]
           (fresh_page false [9] [3 # 4]%Q false false true false false "" "")).
Proof.
  pose (p := fresh_page false [9] [1 # 2; 0; 3 # 4]%Q
                        false false true false false "" "").
  destruct (generatePlain_fallback_consumes_and_warns p 2) as [pw Hrun].
  - reflexivity.
  - vm_compute. discriminate.
  - vm_compute. split; discriminate.
  - cbn. lia.
  - exists pw. exact Hrun.
Defined.

Lemma draw_below_suffix (lim : Z) (tape : list Z) (rand : Z) (rest : list Z) :
  draw_below lim tape = Some (rand, rest) ->
  exists k : nat, (k < List.length tape)%nat /\ rest = skipn (S k) tape.
Proof.
  induction tape as [|w tape IH]; [discriminate|]. cbn [draw_below].
  destruct (lim <=? JS.ToUint32 w).
  - intros Hd. destruct (IH Hd) as (k & Hk & ->).
    exists (S k). split; [simpl; lia | reflexivity].
  - intros [= _ <-]. exists O. split; [simpl; lia | reflexivity].
Qed.

Lemma for_fill_crypto_suffix (range : Z) (n : nat) :
  0 < range <= 2 ^ 32 ->
  forall p : Page,
    crypto_available p = true ->
    supplies n range p = true ->
    exists (idxs : list Z) (k : nat),
      for_fill n (secureRandomInt range) p
      = Return idxs (set_crypto_draws (skipn k (crypto_draws p)) p) /\
      List.length idxs = n /\
      (n <= k <= List.length (crypto_draws p))%nat.
Proof.
  intros Hr. induction n as [|n IH]; intros p Hc Hs.
  - exists [], O. cbn. split; [|split; [reflexivity | lia]].
    unfold ret. f_equal. destruct p; reflexivity.
  - pose proof Hs as Hs'. unfold supplies in Hs'. rewrite Hc in Hs'.
    apply Nat.leb_le in Hs'.
    destruct (draw_below_counts _ _ _ Hs') as (rand & rest & Hd & _ & Hn).
    destruct (draw_below_suffix _ _ _ _ Hd) as (k1 & Hk1 & Hrest).
    set (p1 := set_crypto_draws rest p).
    assert (Hs1 : supplies n range p1 = true).
    { unfold supplies. cbn. rewrite Hc. apply Nat.leb_le. exact Hn. }
    destruct (IH p1 Hc Hs1) as (idxs & k2 & Hrun & Hlen & Hk2).
    exists (rand mod range :: idxs), (k2 + S k1)%nat.
    split; [|split].
    + cbn [for_fill]. unfold bind at 1.
      rewrite secureRandomInt_crypto by (assumption || lia). rewrite Hd.
      fold p1. unfold bind at 1. rewrite Hrun. unfold ret. f_equal.
      unfold p1. cbn [crypto_draws set_crypto_draws].
      rewrite Hrest, skipn_skipn. reflexivity.
    + simpl. congruence.
    + unfold p1 in Hk2. cbn [crypto_draws set_crypto_draws] in Hk2.
      rewrite Hrest, length_skipn in Hk2. lia.
Qed.

(** X4. With the cryptographic source, generating a password of n
    characters only moves the cryptographic tape forward: at least n words
    are taken (more when some are rejected), the words left are a suffix
    of the tape, and nothing else on the page changes; no [Math.random]
    value is used and nothing is logged. *)
Theorem generatePlain_crypto_only_consumes_words (p : Page) (n : Z) :
  crypto_available p = true ->
  pool_of p <> "" ->
  0 <= n <= maxUint ->
  supplies (Z.to_nat n) (JS.length (pool_of p)) p = true ->
  exists (pw : string) (k : nat),
    generatePlain (JS.Num n) p
    = Return pw (set_crypto_draws (skipn k (crypto_draws p)) p) /\
    (Z.to_nat n <= k <= List.length (crypto_draws p))%nat.
Proof.
  intros Hc Hne Hn Hs.
  destruct (for_fill_crypto_suffix _ _ (pool_of_nonempty_length p Hne) p Hc Hs)
    as (idxs & k & Hrun & _ & Hk).
  exists (JS.join (map (JS.charAt (pool_of p)) idxs)), k.
  split; [|exact Hk].
  rewrite generatePlain_nonempty_pool by exact Hne.
  destruct (Z.ltb_spec n 0); [lia|]. destruct (Z.ltb_spec maxUint n); [lia|].
  cbn [orb]. rewrite Hrun. reflexivity.
Qed.

Lemma generatePlain_crypto_only_consumes_words_witness :
  exists (pw : string) (k : nat),
    generatePlain (JS.Num 2)
      (fresh_page true [4294967295; 3; 4; 5] [1 # 2]%Q
                  false true false false false "" "")
    = Return pw
        (fresh_page true (skipn k [4294967295; 3; 4; 5]) [1 # 2]%Q
                    false true false false false "" "") /\
    (2 <= k <= 4)%nat.
Proof.
  pose (p := fresh_page true [4294967295; 3; 4; 5] [1 # 2]%Q
                        false true false false false "" "").
  destruct (generatePlain_crypto_only_consumes_words p 2)
    as (pw & k & Hrun & Hk).
  - reflexivity.
  - vm_compute. discriminate.
  - vm_compute. split; discriminate.
  - reflexivity.
  - exists pw, k. split; [exact Hrun | exact Hk].
Defined.

(** X5. The pool has 26 + 26 + 10 + 24 characters for the four classes,
    counted for the ticked ones only, less two uppercase, one lowercase
    and one digit when ambiguous characters are excluded; so a pool is
    either empty or has between 9 and 86 characters. *)
Theorem buildCharPool_size (p : Page) :
  buildCharPool p = Return (pool_of p) p /\
  JS.length (pool_of p) = pool_size_formula p /\
  (JS.length (pool_of p) = 0 \/ 9 <= JS.length (pool_of p) <= 86).
Proof.
  split; [apply buildCharPool_run|].
  destruct p as [ca cd rd u l n s e ln lr pin lg h co al].
  destruct u, l, n, s, e; vm_compute; (split; [reflexivity|]);
    first [ left; reflexivity | right; split; discriminate ].
Qed.

(** ** History *)

Lemma set_history_same (p : Page) : set_history (history p) p = p.
Proof. destruct p; reflexivity. Qed.

Lemma pushHistory_history_push (pw : string) (p : Page) :
  pushHistory pw p = Return tt (set_history (history_push pw (history p)) p).
Proof.
  unfold pushHistory, history_push.
  destruct (String.eqb pw ""); [now rewrite set_history_same|].
  unfold bind, gets.
  destruct (match history p with
            | first :: _ => String.eqb first pw
            | [] => false
            end); [now rewrite set_history_same | reflexivity].
Qed.

Lemma history_push_firstn (pw : string) (h : list string) :
  pw <> "" -> hd_error h <> Some pw ->
  history_push pw h = firstn (Nat.max 8 (List.length h)) (pw :: h).
Proof.
  intros Hne Hhd. unfold history_push.
  destruct (String.eqb_spec pw ""); [contradiction|].
  assert (Hfirst : match h with
                   | first :: _ => String.eqb first pw
                   | [] => false
                   end = false).
  { destruct h as [|first h]; [reflexivity|].
    destruct (String.eqb_spec first pw); [|reflexivity].
    subst. now contradiction Hhd. }
  rewrite Hfirst.
  destruct (Z.ltb_spec 8 (Z.of_nat (List.length (pw :: h)))) as [Hlong|Hshort].
  - rewrite removelast_firstn_len. cbn [List.length Nat.pred] in *.
    f_equal. lia.
  - rewrite firstn_all2; [reflexivity | cbn [List.length] in *; lia].
Qed.

Lemma history_push_length (pw : string) (h : list string) :
  (List.length (history_push pw h) <= Nat.max 8 (List.length h))%nat.
Proof.
  unfold history_push.
  destruct (String.eqb pw ""); [lia|].
  destruct (match h with
            | first :: _ => String.eqb first pw
            | [] => false
            end); [lia|].
  destruct (Z.ltb_spec 8 (Z.of_nat (List.length (pw :: h)))) as [Hlong|Hshort].
  - rewrite removelast_firstn_len, length_firstn. cbn [List.length Nat.pred]. lia.
  - cbn [List.length] in *. lia.
Qed.

Lemma history_push_head (pw : string) (h : list string) :
  pw <> "" -> hd_error (history_push pw h) = Some pw.
Proof.
  intros Hne. unfold history_push.
  destruct (String.eqb_spec pw ""); [contradiction|].
  destruct h as [|first h].
  - reflexivity.
  - destruct (String.eqb_spec first pw); [subst; reflexivity|].
    destruct (8 <? Z.of_nat (List.length (pw :: first :: h))); reflexivity.
Qed.

(** X6. However many passwords are pushed, the history holds at most 8 of
    them (never more than 8, or than it held before if that was more), and
    pushing changes nothing on the page but the history. *)
Theorem pushHistory_keeps_at_most_8 (pws : list string) (p : Page) :
  exists h : list string,
    pushHistory_each pws p = Return tt (set_history h p) /\
    (List.length h <= Nat.max 8 (List.length (history p)))%nat.
Proof.
  revert p. induction pws as [|pw pws IH]; intros p.
  - exists (history p). cbn [pushHistory_each]. unfold ret.
    rewrite set_history_same. split; [reflexivity | lia].
  - cbn [pushHistory_each]. unfold bind.
    rewrite pushHistory_history_push.
    destruct (IH (set_history (history_push pw (history p)) p))
      as (h & Hrun & Hlen).
    exists h. rewrite Hrun. split; [reflexivity|].
    cbn [history set_history] in Hlen.
    pose proof (history_push_length pw (history p)). lia.
Qed.

(** X7. Pushing a non-empty password that is not already the newest entry
    puts it in front of the earlier entries, kept in their order, and
    drops the oldest entry when that makes more than 8. *)
Theorem pushHistory_newest_first (pw : string) (p : Page) :
  pw <> "" ->
  hd_error (history p) <> Some pw ->
  (List.length (history p) <= 8)%nat ->
  pushHistory pw p = Return tt (set_history (firstn 8 (pw :: history p)) p).
Proof.
  intros Hne Hhd Hlen. rewrite pushHistory_history_push.
  rewrite history_push_firstn by assumption.
  replace (Nat.max 8 (List.length (history p))) with 8%nat by lia.
  reflexivity.
Qed.

Lemma pushHistory_newest_first_witness :
  pushHistory "i"
    (mkPage true [] [] true true true true false "" "" "" ""
            ["a"; "b"; "c"; "d"; "e"; "f"; "g"; "h"] [] [])
  = Return tt
      (mkPage true [] [] true true true true false "" "" "" ""
              ["i"; "a"; "b"; "c"; "d"; "e"; "f"; "g"] [] []).
Proof.
  apply (pushHistory_newest_first "i"
           (mkPage true [] [] true true true true false "" "" "" ""
                   ["a"; "b"; "c"; "d"; "e"; "f"; "g"; "h"] [] [])).
  - discriminate.
  - discriminate.
  - cbn. lia.
Defined.

(** X8. An empty password is never recorded, and pushing the same
    password twice in a row records it once: the second push changes
    nothing. *)
Theorem pushHistory_ignores_empty_and_repeat (pw : string) (p : Page) :
  pushHistory "" p = Return tt p /\
  (pushHistory pw ;;; pushHistory pw) p = pushHistory pw p.
Proof.
  split.
  - rewrite pushHistory_history_push. cbn. apply f_equal, set_history_same.
  - unfold bind. rewrite !pushHistory_history_push.
    cbn [history set_history]. f_equal.
    destruct (String.eqb_spec pw "") as [->|Hne]; [reflexivity|].
    pose proof (history_push_head pw (history p) Hne) as Hhd.
    unfold history_push at 1.
    destruct (String.eqb_spec pw ""); [contradiction|].
    destruct (history_push pw (history p)) as [|first h]; [discriminate|].
    injection Hhd as ->. rewrite String.eqb_refl. reflexivity.
Qed.

(** ** More on the generate button *)

Lemma generateHandler_unfold (fastReveal : bool) (p : Page) :
  generateHandler fastReveal p =
  match generatePlain (handler_length p)
          (set_lengths (JS.to_string (handler_length p)) p) with
  | Return pw p2 => Return tt (generated_page fastReveal pw p2)
  | Throw _ p1 =>
      Return tt
        (show_alert
           "Failed to generate — please select at least one character set."
           (log_line "Generate failed:" p1))
  | Starved => Starved
  end.
Proof.
  unfold generateHandler, try_catch.
  unfold bind at 1. unfold gets at 1.
  unfold bind at 1. unfold gets at 1.
  fold (handler_length p).
  unfold bind at 1. unfold modify at 1.
  unfold bind at 1.
  destruct (generatePlain _ _) as [pw p2|e p1|]; [|reflexivity|reflexivity].
  unfold bind at 1. unfold modify at 1.
  unfold bind at 1.
  replace ((if fastReveal then modify (set_passwordInput pw)
            else scrambleReveal pw 700) (set_lastGenerated pw p2))
    with (Return tt (if fastReveal
                     then set_passwordInput pw (set_lastGenerated pw p2)
                     else set_lastGenerated pw p2))
    by (destruct fastReveal; reflexivity).
  unfold bind at 1. rewrite updateStrengthUI_run, pushHistory_history_push.
  unfold generated_page. destruct fastReveal; reflexivity.
Qed.

Lemma handler_length_requested (p : Page) :
  handler_length p =
  match requested_length p with
  | JS.Num n => JS.Num (clamp_length n)
  | JS.NaN => JS.NaN
  end.
Proof.
  unfold handler_length. rewrite or_else_requested_length.
  destruct (requested_length p) as [|n]; [reflexivity|].
  cbn [JS.Math_max JS.Math_min]. now rewrite clamp_length_max_min.
Qed.

Lemma clamp_length_range (n : Z) : 6 <= clamp_length n <= 64.
Proof. rewrite <- clamp_length_max_min. lia. Qed.

Lemma parseInt_to_string_clamped (c : Z) :
  6 <= c <= 64 -> JS.parseInt (JS.to_string (JS.Num c)) = JS.Num c.
Proof.
  intros Hc.
  assert (Hk : exists k : nat, (k < 59)%nat /\ c = 6 + Z.of_nat k)
    by (exists (Z.to_nat (c - 6)); lia).
  destruct Hk as (k & Hk & ->). clear Hc.
  do 59 (destruct k as [|k]; [vm_compute; reflexivity|]). lia.
Qed.

Lemma generateHandler_success (fastReveal : bool) (p : Page) (n : Z) :
  requested_length p = JS.Num n ->
  pool_of p <> "" ->
  supplies (Z.to_nat (clamp_length n)) (JS.length (pool_of p)) p = true ->
  exists (pw : string) (p2 : Page),
    generateHandler fastReveal p = Return tt (generated_page fastReveal pw p2) /\
    JS.length pw = clamp_length n /\
    consumed (set_lengths (JS.to_string (JS.Num (clamp_length n))) p) p2.
Proof.
  intros Hreq Hne Hs. pose proof (clamp_length_range n) as Hc.
  rewrite generateHandler_unfold, handler_length_requested, Hreq.
  destruct (generatePlain_supplied
              (set_lengths (JS.to_string (JS.Num (clamp_length n))) p)
              (clamp_length n))
    as (idxs & p2 & _ & Hrun & Hlen & Hall & Hcons);
    [exact Hne | unfold maxUint; lia | exact Hs |].
  destruct (join_charAt _ idxs Hall) as [Hjl _].
  rewrite Hrun. eexists _, p2. split; [reflexivity|].
  split; [lia | exact Hcons].
Qed.

(** C8, as stated, fails for an entry of 0 in the number box: 0 is below
    6, yet the handler does not turn it into 6; it takes the slider's
    value, here 40, and generates 40 characters. *)
Lemma generateHandler_zero_entry_defers_to_slider :
  JS.parseInt "0" = JS.Num 0 /\
  clamp_length 0 = 6 /\
  exists p' : Page,
    generateHandler true
      (fresh_page true (repeat 7 40) [] false true false false false
                  "0" "40")
    = Return tt p' /\
    JS.length (lastGenerated p') = 40.
Proof.
  split; [reflexivity|]. split; [reflexivity|].
  pose (p := fresh_page true (repeat 7 40) []
                        false true false false false "0" "40").
  destruct (generateHandler_success true p 40)
    as (pw & p2 & Hrun & Hlen & _).
  - reflexivity.
  - vm_compute. discriminate.
  - reflexivity.
  - exists (generated_page true pw p2). split; [exact Hrun | exact Hlen].
Qed.

(** X9. The generate button never lets an exception out: whatever the
    page holds, the handler completes normally, unless the random source
    stops delivering. *)
Theorem generateHandler_never_throws (fastReveal : bool) (p : Page) :
  (exists p' : Page, generateHandler fastReveal p = Return tt p') \/
  generateHandler fastReveal p = Starved.
Proof.
  rewrite generateHandler_unfold.
  destruct (generatePlain _ _) as [pw p2|e p1|];
    [left; eexists; reflexivity | left; eexists; reflexivity | right; reflexivity].
Qed.

(** X10. When no character class is ticked, or when neither length
    control holds a number, the generate button generates nothing: it
    logs the failure and shows one alert, the one asking to select a
    character set, in both cases; the last password, the output field, the
    history and both random tapes stay as they were. *)
Theorem generateHandler_failure_alerts (fastReveal : bool) (p : Page) :
  pool_of p = "" \/ requested_length p = JS.NaN ->
  exists p' : Page,
    generateHandler fastReveal p = Return tt p' /\
    alerts p' = (alerts p
                 ++ ["Failed to generate — please select at least one character set."])%list /\
    console p' = (console p ++ ["Generate failed:"])%list /\
    lastGenerated p' = lastGenerated p /\
    passwordInput p' = passwordInput p /\
    history p' = history p /\
    crypto_draws p' = crypto_draws p /\
    random_draws p' = random_draws p.
Proof.
  intros Hcase. rewrite generateHandler_unfold.
  set (p1 := set_lengths (JS.to_string (handler_length p)) p).
  assert (Hthrow : exists e, generatePlain (handler_length p) p1 = Throw e p1).
  { destruct (string_dec (pool_of p) "") as [He|Hne].
    - exists EmptyPool. apply generatePlain_empty_pool. exact He.
    - destruct Hcase as [He|Hnan]; [contradiction|].
      exists InvalidArrayLength.
      rewrite generatePlain_nonempty_pool by exact Hne.
      rewrite handler_length_requested, Hnan. reflexivity. }
  destruct Hthrow as [e ->].
  eexists. split; [reflexivity|]. repeat split.
Qed.

Lemma generateHandler_failure_alerts_witness :
  exists p' : Page,
    generateHandler false
      (fresh_page true [1; 2; 3] [] true true true true false "" "abc")
    = Return tt p' /\
    alerts p'
    = ["Failed to generate — please select at least one character set."] /\
    lastGenerated p' = "" /\
    crypto_draws p' = [1; 2; 3].
Proof.
  pose (p := fresh_page true [1; 2; 3] [] true true true true false "" "abc").
  destruct (generateHandler_failure_alerts false p)
    as (p' & Hrun & Hal & _ & Hlast & _ & _ & Hcd & _).
  - right. reflexivity.
  - exists p'. repeat split; assumption.
Defined.

(** X11. After a successful run of the generate button the password just
    generated is the last generated one and the newest history entry,
    the history still has at most 8 entries (or no more than before), and
    the output field shows the password at once when the fast reveal is
    asked for and is left to the animation otherwise. *)
Theorem generateHandler_records_password (fastReveal : bool) (p : Page) (n : Z) :
  requested_length p = JS.Num n ->
  pool_of p <> "" ->
  supplies (Z.to_nat (clamp_length n)) (JS.length (pool_of p)) p = true ->
  exists (pw : string) (p' : Page),
    generateHandler fastReveal p = Return tt p' /\
    JS.length pw = clamp_length n /\
    lastGenerated p' = pw /\
    hd_error (history p') = Some pw /\
    (List.length (history p') <= Nat.max 8 (List.length (history p)))%nat /\
    passwordInput p' = (if fastReveal then pw else passwordInput p) /\
    alerts p' = alerts p.
Proof.
  intros Hreq Hne Hs.
  destruct (generateHandler_success fastReveal p n Hreq Hne Hs)
    as (pw & p2 & Hrun & Hlen & Hcons).
  pose proof (clamp_length_range n) as Hc.
  assert (Hpw : pw <> "").
  { intros ->. unfold JS.length in Hlen. simpl in Hlen. lia. }
  assert (Hh : history p2 = history p /\ passwordInput p2 = passwordInput p
               /\ alerts p2 = alerts p)
    by (unfold consumed in Hcons; rewrite Hcons; repeat split).
  destruct Hh as (Hh & Hpi & Hal).
  exists pw, (generated_page fastReveal pw p2).
  split; [exact Hrun|]. split; [exact Hlen|].
  unfold generated_page.
  destruct fastReveal; cbn [lastGenerated history passwordInput alerts
                            set_history set_passwordInput set_lastGenerated];
    rewrite ?Hh, ?Hpi, ?Hal;
    (split; [reflexivity|]);
    (split; [apply history_push_head, Hpw|]);
    (split; [apply history_push_length|]); split; reflexivity.
Qed.

Lemma generateHandler_records_password_witness :
  exists (pw : string) (p' : Page),
    generateHandler true
      (fresh_page true [0; 1; 2; 3; 4; 5; 6] [] false true false false false
                  "3" "40")
    = Return tt p' /\
    JS.length pw = 6 /\
    lastGenerated p' = pw /\
    hd_error (history p') = Some pw /\
    passwordInput p' = pw.
Proof.
  pose (p := fresh_page true [0; 1; 2; 3; 4; 5; 6] []
                        false true false false false "3" "40").
  destruct (generateHandler_records_password true p 3)
    as (pw & p' & Hrun & Hlen & Hlast & Hhd & _ & Hpi & _).
  - reflexivity.
  - vm_compute. discriminate.
  - reflexivity.
  - exists pw, p'. repeat split; assumption.
Defined.

(** X12. A successful run of the generate button leaves the two length
    controls holding the same text, the clamped length; read back, that
    text is the clamped length again, which clamping leaves alone, and
    the pool is unchanged: pressing the button again asks for a password
    of the same length from the same pool. *)
Theorem generateHandler_length_is_sticky (fastReveal : bool) (p : Page) (n : Z) :
  requested_length p = JS.Num n ->
  pool_of p <> "" ->
  supplies (Z.to_nat (clamp_length n)) (JS.length (pool_of p)) p = true ->
  exists p' : Page,
    generateHandler fastReveal p = Return tt p' /\
    lengthNumber p' = lengthRange p' /\
    requested_length p' = JS.Num (clamp_length n) /\
    handler_length p' = JS.Num (clamp_length n) /\
    pool_of p' = pool_of p.
Proof.
  intros Hreq Hne Hs.
  destruct (generateHandler_success fastReveal p n Hreq Hne Hs)
    as (pw & p2 & Hrun & _ & Hcons).
  pose proof (clamp_length_range n) as Hc.
  set (shown := JS.to_string (JS.Num (clamp_length n))) in *.
  set (p' := generated_page fastReveal pw p2).
  assert (Hln : lengthNumber p' = shown /\ lengthRange p' = shown
                /\ pool_of p' = pool_of p).
  { unfold p', generated_page, consumed in *. rewrite Hcons.
    destruct fastReveal; repeat split. }
  destruct Hln as (Hln & Hlr & Hpool).
  assert (Hreq' : requested_length p' = JS.Num (clamp_length n)).
  { unfold requested_length. rewrite Hln. unfold shown.
    rewrite parseInt_to_string_clamped by exact Hc.
    destruct (Z.eqb_spec (clamp_length n) 0); [lia | reflexivity]. }
  exists p'. split; [exact Hrun|]. split; [congruence|].
  split; [exact Hreq'|]. split; [|exact Hpool].
  rewrite handler_length_requested, Hreq'. f_equal.
  unfold clamp_length at 1.
  destruct (Z.ltb_spec (clamp_length n) 6); [lia|].
  destruct (Z.ltb_spec 64 (clamp_length n)); [lia | reflexivity].
Qed.

Lemma generateHandler_length_is_sticky_witness :
  exists p' : Page,
    generateHandler false
      (fresh_page true (repeat 3 64) [] false true false false false
                  "" "900")
    = Return tt p' /\
    lengthNumber p' = lengthRange p' /\
    requested_length p' = JS.Num 64.
Proof.
  pose (p := fresh_page true (repeat 3 64) []
                        false true false false false "" "900").
  destruct (generateHandler_length_is_sticky false p 900)
    as (p' & Hrun & Hsame & Hreq & _).
  - reflexivity.
  - vm_compute. discriminate.
  - reflexivity.
  - exists p'. repeat split; assumption.
Defined.

(** X13. The change listener of the number box puts one number between 6
    and 64 in both length controls: the entry clamped into [6, 64] when it
    reads as a non-zero integer, 16 when it is empty, unreadable or zero;
    both controls then read back as that number.  Nothing else on the
    page changes. *)
Theorem lengthNumber_onchange_normalises (p : Page) :
  let v := clamp_length (change_default (JS.parseInt (lengthNumber p))) in
  lengthNumber_onchange p
    = Return tt (set_lengths (JS.to_string (JS.Num v)) p) /\
  6 <= v <= 64 /\
  JS.parseInt (JS.to_string (JS.Num v)) = JS.Num v.
Proof.
  intros v. pose proof (clamp_length_range
                          (change_default (JS.parseInt (lengthNumber p)))) as Hv.
  fold v in Hv. split; [|split; [exact Hv|]].
  - unfold lengthNumber_onchange, bind, gets, modify. do 2 f_equal.
    unfold v, change_default, JS.or_else, JS.truthy.
    destruct (JS.parseInt (lengthNumber p)) as [|z];
      cbn [JS.Math_max JS.Math_min].
    + now rewrite clamp_length_max_min.
    + destruct (z =? 0); cbn [negb JS.Math_max JS.Math_min];
        now rewrite clamp_length_max_min.
  - apply parseInt_to_string_clamped. exact Hv.
Qed.

(** ** More on the strength estimator *)

Lemma buildCharPool_size_bounds (p : Page) :
  pool_of p = "" \/ 9 <= JS.length (pool_of p).
Proof.
  destruct p as [ca cd rd u l n s e ln lr pin lg h co al].
  destruct u, l, n, s, e; vm_compute;
    first [ left; reflexivity | right; discriminate ].
Qed.

Lemma Set_size_pool_of (p : Page) : JS.Set_size (pool_of p) = JS.length (pool_of p).
Proof.
  unfold JS.Set_size. rewrite chars_length. unfold chars.
  rewrite nodup_fixed_point; [reflexivity | apply pool_of_NoDup].
Qed.

Lemma Math_log2_equal (P : Z) (a k : nat) :
  0 < P -> P ^ Z.of_nat k = 2 ^ Z.of_nat a ->
  (INR k * JS.Math_log2 (IZR P) = INR a)%R.
Proof.
  intros HP Heq. pose proof ln_2_pos as H2.
  assert (H : (INR k * ln (IZR P) = INR a * ln 2)%R)
    by (rewrite <- !ln_pow_IZR by lia; now rewrite Heq).
  unfold JS.Math_log2.
  replace (INR k * (ln (IZR P) / ln 2))%R with ((INR k * ln (IZR P)) / ln 2)%R
    by (field; lra).
  rewrite H. field. lra.
Qed.

(** [L * log2 P < k] is [P^L < 2^k]. *)
Lemma bits_below_iff (P L k : Z) :
  0 < P -> 0 <= L -> 0 <= k ->
  (IZR L * JS.Math_log2 (IZR P) < IZR k)%R <-> P ^ L < 2 ^ k.
Proof.
  intros HP HL Hk.
  rewrite <- (Z2Nat.id L HL), <- (Z2Nat.id k Hk), <- !INR_IZR_INZ.
  set (n := Z.to_nat L). set (a := Z.to_nat k).
  split.
  - intros Hlt.
    destruct (Z.lt_trichotomy (P ^ Z.of_nat n) (2 ^ Z.of_nat a))
      as [H|[H|H]]; [exact H | |].
    + pose proof (Math_log2_equal P a n HP H). lra.
    + pose proof (Math_log2_above P a n HP H). lra.
  - apply Math_log2_below, HP.
Qed.

(** X14. A higher entropy never gives a lower strength: the percentage
    shown by the strength bar is monotone in the number of bits. *)
Theorem strengthFromEntropy_monotone (bits1 bits2 : R) :
  (bits1 <= bits2)%R ->
  pct (strengthFromEntropy bits1) <= pct (strengthFromEntropy bits2).
Proof.
  intros Hle. unfold strengthFromEntropy.
  destruct (Rlt_dec bits1 28), (Rlt_dec bits2 28);
  destruct (Rlt_dec bits1 40), (Rlt_dec bits2 40);
  destruct (Rlt_dec bits1 60), (Rlt_dec bits2 60);
  destruct (Rlt_dec bits1 80), (Rlt_dec bits2 80);
    cbn [pct]; first [lia | lra].
Qed.

Lemma strengthFromEntropy_monotone_witness :
  pct (strengthFromEntropy 30) <= pct (strengthFromEntropy 70).
Proof.
  apply (strengthFromEntropy_monotone 30 70). lra.
Defined.

(** X15. The strength category needs no logarithm: for a pool of P > 0
    distinct symbols and a password of length L, the category shown is
    the one found by comparing P^L, the number of such passwords, with
    2^28, 2^40, 2^60 and 2^80. *)
Theorem strength_category_by_count (p : Page) (pw : string) :
  0 < JS.Set_size (pool_of p) ->
  exists bits : R,
    estimateEntropyBits pw p = Return bits p /\
    label (strengthFromEntropy bits)
    = category_label
        (category_by_count (JS.Set_size (pool_of p)) (JS.length pw)).
Proof.
  intros HP. set (P := JS.Set_size (pool_of p)) in *.
  set (L := JS.length pw).
  assert (HL : 0 <= L) by (unfold L, JS.length; lia).
  exists (IZR L * JS.Math_log2 (IZR P))%R.
  split; [apply estimateEntropyBits_positive_pool, HP|].
  pose proof (bits_below_iff P L 28 HP HL ltac:(lia)) as H28.
  pose proof (bits_below_iff P L 40 HP HL ltac:(lia)) as H40.
  pose proof (bits_below_iff P L 60 HP HL ltac:(lia)) as H60.
  pose proof (bits_below_iff P L 80 HP HL ltac:(lia)) as H80.
  unfold strengthFromEntropy, category_by_count.
  destruct (Rlt_dec _ 28) as [R28|R28];
    destruct (Z.ltb_spec (P ^ L) (2 ^ 28)) as [Z28|Z28];
    try reflexivity; try (apply H28 in R28; lia);
    try (apply H28 in Z28; contradiction).
  destruct (Rlt_dec _ 40) as [R40|R40];
    destruct (Z.ltb_spec (P ^ L) (2 ^ 40)) as [Z40|Z40];
    try reflexivity; try (apply H40 in R40; lia);
    try (apply H40 in Z40; contradiction).
  destruct (Rlt_dec _ 60) as [R60|R60];
    destruct (Z.ltb_spec (P ^ L) (2 ^ 60)) as [Z60|Z60];
    try reflexivity; try (apply H60 in R60; lia);
    try (apply H60 in Z60; contradiction).
  destruct (Rlt_dec _ 80) as [R80|R80];
    destruct (Z.ltb_spec (P ^ L) (2 ^ 80)) as [Z80|Z80];
    try reflexivity; try (apply H80 in R80; lia);
    try (apply H80 in Z80; contradiction).
Qed.

Lemma strength_category_by_count_witness :
  exists bits : R,
    estimateEntropyBits "Qk7#vT2m!xR9p"
      (fresh_page true [] [] true true true true false "" "")
    = Return bits (fresh_page true [] [] true true true true false "" "") /\
    label (strengthFromEntropy bits) = "Very strong".
Proof.
  pose (p := fresh_page true [] [] true true true true false "" "").
  destruct (strength_category_by_count p "Qk7#vT2m!xR9p")
    as (bits & Hrun & Hlabel).
  - vm_compute. reflexivity.
  - exists bits. split; [exact Hrun | exact Hlabel].
Defined.

(** X16. The entropy estimate is never negative, and it is zero exactly
    when the password is empty or no character class is ticked. *)
Theorem estimateEntropyBits_zero_iff (p : Page) (pw : string) :
  exists bits : R,
    estimateEntropyBits pw p = Return bits p /\
    (0 <= bits)%R /\
    (bits = 0%R <-> pw = "" \/ pool_of p = "").
Proof.
  unfold estimateEntropyBits, bind. rewrite buildCharPool_run, Set_size_pool_of.
  destruct (Z.eqb_spec (JS.length (pool_of p)) 0) as [He|Hne].
  - exists 0%R. split; [reflexivity|]. split; [lra|].
    split; [intros _; right | reflexivity].
    unfold JS.length in He. destruct (pool_of p); [reflexivity | simpl in He; lia].
  - eexists. split; [reflexivity|].
    assert (Hpool : pool_of p <> "").
    { intros E. rewrite E in Hne. now apply Hne. }
    destruct (buildCharPool_size_bounds p) as [H0|H9]; [contradiction|].
    assert (Hlog : (0 < JS.Math_log2 (IZR (JS.length (pool_of p))))%R).
    { unfold JS.Math_log2. apply Rdiv_lt_0_compat; [|apply ln_2_pos].
      rewrite <- ln_1. apply ln_increasing; [lra|]. apply IZR_lt. lia. }
    assert (HL : (0 <= IZR (JS.length pw))%R)
      by (apply IZR_le; unfold JS.length; lia).
    split; [apply Rmult_le_pos; lra|].
    split.
    + intros Hz. left.
      apply Rmult_integral in Hz. destruct Hz as [Hz|Hz]; [|lra].
      apply eq_IZR in Hz. unfold JS.length in Hz.
      destruct pw; [reflexivity | simpl in Hz; lia].
    + intros [->|E]; [|contradiction]. cbn. lra.
Qed.

(** X17. The logo lock takes the colour of the strength bar, except for
    a Very weak password (under 28 bits), where the bar is red (#ff6b6b)
    and the lock takes the orange of Weak (#ff8a4a). *)
Theorem lockColor_follows_strength_colour (bits : R) :
  ((bits < 28)%R /\
   color (strengthFromEntropy bits) = "#ff6b6b" /\
   lockColor (strengthFromEntropy bits) = "#ff8a4a") \/
  ((28 <= bits)%R /\
   lockColor (strengthFromEntropy bits) = color (strengthFromEntropy bits)).
Proof.
  unfold strengthFromEntropy.
  destruct (Rlt_dec bits 28); [left; repeat split; assumption|].
  right. split; [lra|].
  destruct (Rlt_dec bits 40); [reflexivity|].
  destruct (Rlt_dec bits 60); [reflexivity|].
  destruct (Rlt_dec bits 80); reflexivity.
Qed.

(** ** The scramble animation *)

Lemma string_app_assoc (a b c : string) :
  ((a ++ b) ++ c = a ++ (b ++ c))%string.
Proof. induction a as [|x a IH]; simpl; [reflexivity | now rewrite IH]. Qed.

Lemma string_app_length (a b : string) :
  String.length (a ++ b) = (String.length a + String.length b)%nat.
Proof. induction a as [|x a IH]; simpl; [reflexivity | now rewrite IH]. Qed.

Lemma string_get_app_right (a b : string) (j : nat) :
  String.get (String.length a + j) (a ++ b) = String.get j b.
Proof. induction a as [|x a IH]; simpl; [reflexivity | exact IH]. Qed.

Lemma index_text_middle (pre suf : string) (c : ascii) :
  index_text (pre ++ String c suf) (JS.length pre) = String c "".
Proof.
  unfold index_text, JS.charAt, JS.length.
  rewrite string_app_length. cbn [String.length].
  destruct (Z.leb_spec 0 (Z.of_nat (String.length pre))); [|lia].
  destruct (Z.ltb_spec (Z.of_nat (String.length pre))
              (Z.of_nat (String.length pre + S (String.length suf))));
    [|lia].
  cbn [andb]. destruct (Z.ltb_spec (Z.of_nat (String.length pre)) 0); [lia|].
  rewrite Nat2Z.id.
  rewrite <- (Nat.add_0_r (String.length pre)) at 1.
  rewrite string_get_app_right. reflexivity.
Qed.

Lemma forallb_firstn_weaken {A} (f : A -> bool) (n : nat) :
  forall l : list A,
    forallb f (firstn (S n) l) = true -> forallb f (firstn n l) = true.
Proof.
  induction n as [|n IH]; intros l H; [reflexivity|].
  destruct l as [|x l]; [reflexivity|].
  cbn [firstn forallb] in *.
  apply andb_true_iff in H. destruct H as [Hx H].
  rewrite Hx. cbn [andb]. apply IH. exact H.
Qed.

Lemma supplies_weaken (n : nat) (range : Z) (p : Page) :
  supplies (S n) range p = true -> supplies n range p = true.
Proof.
  unfold supplies. destruct (crypto_available p).
  - intros H. apply Nat.leb_le in H. apply Nat.leb_le. lia.
  - intros H. apply andb_true_iff in H. destruct H as [Hlen Hall].
    apply Nat.leb_le in Hlen. apply andb_true_iff. split.
    + apply Nat.leb_le. lia.
    + apply forallb_firstn_weaken, Hall.
Qed.

(** Every index still to do is revealed: the loop copies the rest of the
    final text and draws nothing. *)
Lemma scramble_loop_all_revealed (pool : string) (revealCount : Z) (p : Page) :
  forall (suf pre out : string),
    JS.length (pre ++ suf) <= revealCount ->
    scramble_loop (String.length suf) (JS.length pre) revealCount
                  (pre ++ suf) pool out p
    = Return (out ++ suf)%string p.
Proof.
  induction suf as [|c suf IH]; intros pre out Hrc.
  - cbn. unfold ret. f_equal. clear. induction out; simpl; congruence.
  - cbn [String.length scramble_loop]. unfold bind at 1.
    assert (Hlt : JS.length pre < revealCount).
    { unfold JS.length in *. rewrite string_app_length in Hrc.
      cbn [String.length] in Hrc. lia. }
    destruct (Z.ltb_spec (JS.length pre) revealCount); [|lia].
    unfold ret at 1. rewrite index_text_middle.
    replace (pre ++ String c suf)%string with ((pre ++ String c "") ++ suf)%string
      by (rewrite string_app_assoc; reflexivity).
    replace (JS.length pre + 1) with (JS.length (pre ++ String c ""))
      by (unfold JS.length; rewrite string_app_length; cbn; lia).
    rewrite IH.
    + rewrite string_app_assoc. reflexivity.
    + rewrite string_app_assoc. exact Hrc.
Qed.

Lemma Qfloor_one_times (z : Z) : Qfloor (1 * inject_Z z) = z.
Proof.
  unfold Qfloor, Qmult, inject_Z. cbn [Qnum Qden].
  rewrite Z.div_1_r. destruct z; reflexivity.
Qed.

Lemma min_one_late (start duration now : Q) :
  (0 < duration)%Q -> (start + duration <= now)%Q ->
  min_one ((now - start) / duration) = 1%Q /\
  Qle_bool 1 (min_one ((now - start) / duration)) = true.
Proof.
  intros Hd Hnow.
  assert (H1 : Qle_bool 1 ((now - start) / duration) = true).
  { apply Qle_bool_iff, Qle_shift_div_l; [exact Hd|]. Lqa.lra. }
  unfold min_one. rewrite H1. split; reflexivity.
Qed.

(** X18. A frame that runs once the duration has passed ends the
    animation: it writes the real password to the output field, asks for
    no further frame and takes nothing from the random sources, whatever
    the pool and the page. *)
Theorem scramble_frame_ends_on_final_text
    (start duration now : Q) (finalText pool : string) (p : Page) :
  (0 < duration)%Q ->
  (start + duration <= now)%Q ->
  scramble_frame start duration finalText pool now p
  = Return false (set_passwordInput finalText p).
Proof.
  intros Hd Hnow.
  destruct (min_one_late start duration now Hd Hnow) as [Ht Hle].
  unfold scramble_frame. rewrite Hle, Ht, Qfloor_one_times. cbn [negb].
  pose proof (scramble_loop_all_revealed pool (JS.length finalText) p
                finalText "" "") as Hloop.
  cbn [String.append] in Hloop.
  change (JS.length "") with 0 in Hloop.
  unfold JS.length at 1.
  rewrite Nat2Z.id. unfold bind at 1. rewrite Hloop by lia.
  reflexivity.
Qed.

Lemma scramble_frame_ends_on_final_text_witness :
  scramble_frame 100 700 "s3cr3t" "abc" 800
    (fresh_page true [] [] true false false false false "" "")
  = Return false
      (set_passwordInput "s3cr3t"
         (fresh_page true [] [] true false false false false "" "")).
Proof.
  apply scramble_frame_ends_on_final_text; Lqa.lra.
Defined.

Lemma scramble_loop_progress (pool : string) (revealCount : Z) :
  0 < JS.length pool <= 2 ^ 32 ->
  forall (suf pre out : string) (p : Page),
    supplies (String.length suf) (JS.length pool) p = true ->
    exists (str : string) (p' : Page),
      scramble_loop (String.length suf) (JS.length pre) revealCount
                    (pre ++ suf) pool out p
      = Return (out ++ str)%string p' /\
      String.length str = String.length suf /\
      consumed p p' /\
      (forall j : nat,
         (j < String.length suf)%nat ->
         (JS.length pre + Z.of_nat j < revealCount ->
          String.get j str = String.get j suf) /\
         (revealCount <= JS.length pre + Z.of_nat j ->
          exists c, String.get j str = Some c /\ In c (chars pool))).
Proof.
  intros Hpool. induction suf as [|c suf IH]; intros pre out p Hs.
  - exists "", p. cbn. unfold ret.
    split; [f_equal; clear; induction out; simpl; congruence|].
    split; [reflexivity|]. split; [apply consumed_refl|]. intros j Hj. lia.
  - cbn [String.length scramble_loop]. unfold bind at 1.
    assert (Hpre : forall x : ascii,
               (pre ++ String c suf)%string = ((pre ++ String c "") ++ suf)%string
               /\ JS.length pre + 1 = JS.length (pre ++ String c ""))
      by (intros _; split;
          [rewrite string_app_assoc; reflexivity
          | unfold JS.length; rewrite string_app_length; cbn; lia]).
    destruct (Hpre c) as [Hsplit Hnext].
    destruct (Z.ltb_spec (JS.length pre) revealCount) as [Hlt|Hge].
    + unfold ret at 1. rewrite index_text_middle, Hsplit, Hnext.
      destruct (IH (pre ++ String c "")%string (out ++ String c "")%string p
                  (supplies_weaken _ _ _ Hs))
        as (str & p' & Hrun & Hlen & Hcons & Hchars).
      exists (String c str), p'. rewrite Hrun, string_app_assoc.
      split; [reflexivity|]. split; [cbn; congruence|].
      split; [exact Hcons|].
      intros [|j] Hj.
      * split; [reflexivity | lia].
      * cbn [String.get]. rewrite <- Hnext in Hchars.
        destruct (Hchars j ltac:(cbn in Hj; lia)) as [Hrev Hrand].
        split; intros H; [apply Hrev | apply Hrand]; lia.
    + destruct (secureRandomInt_supplied _ _ p Hpool Hs)
        as (v & p1 & Hdraw & Hv & Hs1 & Hcons1).
      unfold bind at 1. rewrite Hdraw. unfold ret at 1.
      destruct (charAt_index pool v Hv) as (c' & Hc' & Hin).
      rewrite Hc', Hsplit, Hnext.
      destruct (IH (pre ++ String c "")%string (out ++ String c' "")%string p1 Hs1)
        as (str & p' & Hrun & Hlen & Hcons & Hchars).
      exists (String c' str), p'. rewrite Hrun, string_app_assoc.
      split; [reflexivity|]. split; [cbn; congruence|].
      split; [eapply consumed_trans; eassumption|].
      intros [|j] Hj.
      * split; [lia | intros _; exists c'; split; [reflexivity | exact Hin]].
      * cbn [String.get]. rewrite <- Hnext in Hchars.
        destruct (Hchars j ltac:(cbn in Hj; lia)) as [Hrev Hrand].
        split; intros H; [apply Hrev | apply Hrand]; lia.
Qed.

(** X19. Whatever number of characters a frame has to reveal, its loop
    builds a text as long as the password: the characters at the indices
    below that number are those of the password, every other character is
    one drawn from the pool by the random selector; on the page the loop
    touches only the random tapes and the console. *)
Theorem scramble_loop_reveals_prefix
    (revealCount : Z) (finalText pool : string) (p : Page) :
  0 < JS.length pool <= 2 ^ 32 ->
  supplies (String.length finalText) (JS.length pool) p = true ->
  exists (out : string) (p' : Page),
    scramble_loop (Z.to_nat (JS.length finalText)) 0 revealCount
                  finalText pool "" p
    = Return out p' /\
    consumed p p' /\
    JS.length out = JS.length finalText /\
    (forall j : Z,
       0 <= j < JS.length finalText ->
       (j < revealCount -> JS.charAt out j = JS.charAt finalText j) /\
       (revealCount <= j ->
        exists c, JS.charAt out j = String c "" /\ In c (chars pool))).
Proof.
  intros Hpool Hs.
  destruct (scramble_loop_progress pool revealCount Hpool finalText "" "" p Hs)
    as (out & p' & Hrun & Hlen & Hcons & Hchars).
  cbn [String.append] in Hrun. change (JS.length "") with 0 in *.
  exists out, p'. split; [|split; [exact Hcons|split]].
  - unfold JS.length at 1. rewrite Nat2Z.id. exact Hrun.
  - unfold JS.length. congruence.
  - intros j Hj. unfold JS.length in Hj.
    destruct (Hchars (Z.to_nat j) ltac:(lia)) as [Hrev Hrand].
    rewrite Z2Nat.id in Hrev, Hrand by lia.
    unfold JS.charAt. destruct (Z.ltb_spec j 0); [lia|].
    split.
    + intros Hbefore. rewrite Hrev by lia. reflexivity.
    + intros Hafter. destruct (Hrand ltac:(lia)) as (c & Hc & Hin).
      exists c. rewrite Hc. split; [reflexivity | exact Hin].
Qed.

Lemma scramble_loop_reveals_prefix_witness :
  exists (out : string) (p' : Page),
    scramble_loop 6 0 3 "s3cr3t" "abc" ""
      (fresh_page true [0; 1; 2; 0; 1; 2] [] true false false false false
                  "" "")
    = Return out p' /\
    JS.length out = 6 /\
    JS.charAt out 2 = "c".
Proof.
  pose (p := fresh_page true [0; 1; 2; 0; 1; 2] []
                        true false false false false "" "").
  destruct (scramble_loop_reveals_prefix 3 "s3cr3t" "abc" p)
    as (out & p' & Hrun & _ & Hlen & Hchars).
  - vm_compute. split; [reflexivity | discriminate].
  - reflexivity.
  - exists out, p'. split; [exact Hrun|]. split; [exact Hlen|].
    destruct (Hchars 2) as [Hrev _].
    + unfold JS.length. cbn. lia.
    + apply Hrev. lia.
Defined.

(** X20. The animation never scrambles over an empty pool: it uses the
    pool of the ticked classes and, when none is ticked, the lowercase
    letters and digits; either way the pool has between 9 and 86
    characters, so the random selector never raises its range error in a
    frame. *)
Theorem scramble_pool_never_empty (p : Page) :
  exists pool : string,
    scramble_pool p = Return pool p /\
    (pool_of p <> "" /\ pool = pool_of p \/
     pool_of p = "" /\ pool = "abcdefghijklmnopqrstuvwxyz0123456789") /\
    9 <= JS.length pool <= 86 /\
    (forall (q q' : Page) (e : JS.exn),
       secureRandomInt (JS.length pool) q <> Throw e q').
Proof.
  assert (Hthrow : forall pool : string,
             9 <= JS.length pool ->
             forall (q q' : Page) (e : JS.exn),
               secureRandomInt (JS.length pool) q <> Throw e q').
  { intros pool H9 q q' e Ht.
    destruct (crypto_available q) eqn:Hc.
    - rewrite secureRandomInt_crypto in Ht by (assumption || lia).
      destruct (draw_below _ _) as [[? ?]|]; discriminate.
    - rewrite secureRandomInt_fallback in Ht by assumption.
      destruct (random_draws q); discriminate. }
  unfold scramble_pool, bind. rewrite buildCharPool_run. unfold ret.
  destruct (String.eqb_spec (pool_of p) "") as [He|Hne].
  - eexists. split; [reflexivity|]. split; [right; split; [exact He | reflexivity]|].
    split; [vm_compute; split; discriminate|].
    apply Hthrow. vm_compute. discriminate.
  - exists (pool_of p). split; [reflexivity|].
    split; [left; split; [exact Hne | reflexivity]|].
    pose proof (pool_of_length_bound p).
    destruct (buildCharPool_size_bounds p) as [H0|H9]; [contradiction|].
    split; [lia|]. apply Hthrow, H9.
Qed.

(** ** Theme and reveal buttons *)

Lemma themeToggle_click_cases (s : Theme) :
  themeToggle_click s =
  if match pw_theme s with
     | Some v => String.eqb v "light"
     | None => false
     end
  then mkTheme (Some "dark") None
         "linear-gradient(120deg, #071124 0%, #0b1220 40%, #141225 100%)"
         "dark" "false"
  else mkTheme (Some "light") (Some "#f6f7fb")
         "linear-gradient(120deg,#f8fafc,#eef2ff 50%, #fff)"
         "light" "true".
Proof.
  unfold themeToggle_click.
  destruct (match pw_theme s with
            | Some v => String.eqb v "light"
            | None => false
            end); reflexivity.
Qed.

(** X21. A click on the theme button stores and shows the dark theme when
    the stored theme was exactly [light], and the light theme in every
    other case (nothing stored, [dark], or any other text); what is shown
    (colour scheme and pressed state) always agrees with what is
    stored. *)
Theorem themeToggle_click_switches (s : Theme) :
  let s' := themeToggle_click s in
  (pw_theme s = Some "light" /\
   pw_theme s' = Some "dark" /\ color_scheme s' = "dark" /\
   theme_pressed s' = "false") \/
  (pw_theme s <> Some "light" /\
   pw_theme s' = Some "light" /\ color_scheme s' = "light" /\
   theme_pressed s' = "true").
Proof.
  intros s'. unfold s'. rewrite themeToggle_click_cases.
  destruct (pw_theme s) as [v|].
  - destruct (String.eqb_spec v "light") as [->|Hne].
    + left. repeat split.
    + right. repeat split. intros [= E]. contradiction.
  - right. repeat split. discriminate.
Qed.

(** X22. After the first click the theme button alternates between two
    states: two more clicks bring back exactly what one click left. *)
Theorem themeToggle_click_period_two (s : Theme) :
  themeToggle_click (themeToggle_click (themeToggle_click s))
  = themeToggle_click s.
Proof.
  rewrite (themeToggle_click_cases s).
  destruct (match pw_theme s with
            | Some v => String.eqb v "light"
            | None => false
            end); reflexivity.
Qed.

(** X23. Loading the page restores the theme a click left: [init] applies
    the stored theme and the page looks as it did after the click.  With
    nothing stored, an empty item or any text other than [light], [init]
    shows the dark theme; it never writes the stored item. *)
Theorem init_theme_restores_click (s : Theme) :
  init_theme (themeToggle_click s) = themeToggle_click s /\
  pw_theme (init_theme s) = pw_theme s /\
  color_scheme (init_theme s)
  = (if match pw_theme s with
        | Some v => String.eqb v "light"
        | None => false
        end
     then "light" else "dark").
Proof.
  split; [|split].
  - rewrite (themeToggle_click_cases s).
    destruct (match pw_theme s with
              | Some v => String.eqb v "light"
              | None => false
              end); reflexivity.
  - unfold init_theme, applyTheme.
    destruct (String.eqb _ "light"); reflexivity.
  - unfold init_theme, applyTheme.
    destruct (pw_theme s) as [v|]; [|reflexivity].
    destruct (String.eqb_spec v "") as [->|Hne]; [reflexivity|].
    destruct (String.eqb v "light"); reflexivity.
Qed.

(** X24. The reveal button never masks the password: after any click the
    type of the password field is [text], whichever way the flag went.
    The flag itself flips at each click, the pressed state following
    it, so that two more clicks bring back what one click left. *)
Theorem toggleReveal_keeps_text_type (n : nat) (s : Reveal) :
  passwordInput_type (Nat.iter (S n) toggleReveal s) = "text" /\
  reveal (Nat.iter n toggleReveal s) = xorb (reveal s) (Nat.odd n) /\
  reveal_pressed (toggleReveal s)
  = (if reveal s then "false" else "true") /\
  toggleReveal (toggleReveal (toggleReveal s)) = toggleReveal s.
Proof.
  split; [|split; [|split]].
  - rewrite Nat.iter_succ. unfold toggleReveal at 1.
    destruct (negb (reveal (Nat.iter n toggleReveal s))); reflexivity.
  - induction n as [|n IH].
    + cbn. now rewrite xorb_false_r.
    + rewrite Nat.odd_succ, <- Nat.negb_odd, Nat.iter_succ.
      assert (Hflip : forall r, reveal (toggleReveal r) = negb (reveal r))
        by (intros r; unfold toggleReveal; destruct (reveal r); reflexivity).
      rewrite Hflip, IH. destruct (reveal s), (Nat.odd n); reflexivity.
  - unfold toggleReveal. destruct (reveal s); reflexivity.
  - unfold toggleReveal. destruct (reveal s); reflexivity.
Qed.

(** ** From the length entry to the password *)

Lemma clamp_length_fixed (c : Z) : 6 <= c <= 64 -> clamp_length c = c.
Proof.
  intros Hc. unfold clamp_length.
  destruct (Z.ltb_spec c 6); [lia|]. destruct (Z.ltb_spec 64 c); [lia | reflexivity].
Qed.

(** X25. Committing an entry in the number box and then pressing the
    generate button gives a password of exactly the length the box then
    shows: the entry clamped into [6, 64], or 16 for an empty, unreadable
    or zero entry, whatever the slider held. *)
Theorem change_then_generate_uses_shown_length (fastReveal : bool) (p : Page) :
  let v := clamp_length (change_default (JS.parseInt (lengthNumber p))) in
  pool_of p <> "" ->
  supplies (Z.to_nat v) (JS.length (pool_of p)) p = true ->
  exists p' : Page,
    (lengthNumber_onchange ;;; generateHandler fastReveal) p = Return tt p' /\
    JS.length (lastGenerated p') = v /\
    lengthNumber p' = JS.to_string (JS.Num v) /\
    lengthRange p' = JS.to_string (JS.Num v) /\
    alerts p' = alerts p.
Proof.
  intros v Hne Hs.
  pose proof (clamp_length_range
                (change_default (JS.parseInt (lengthNumber p)))) as Hv.
  fold v in Hv.
  set (p1 := set_lengths (JS.to_string (JS.Num v)) p).
  assert (Hchange : lengthNumber_onchange p = Return tt p1).
  { unfold lengthNumber_onchange, bind, gets, modify, p1. do 2 f_equal.
    unfold v, change_default, JS.or_else, JS.truthy.
    destruct (JS.parseInt (lengthNumber p)) as [|z];
      cbn [JS.Math_max JS.Math_min].
    + now rewrite clamp_length_max_min.
    + destruct (z =? 0); cbn [negb JS.Math_max JS.Math_min];
        now rewrite clamp_length_max_min. }
  assert (Hreq : requested_length p1 = JS.Num v).
  { unfold requested_length, p1. cbn [lengthNumber set_lengths].
    rewrite parseInt_to_string_clamped by exact Hv.
    destruct (Z.eqb_spec v 0); [lia | reflexivity]. }
  pose proof (clamp_length_fixed v Hv) as Hfix.
  destruct (generateHandler_success fastReveal p1 v Hreq Hne)
    as (pw & p2 & Hrun & Hlen & Hcons); [rewrite Hfix; exact Hs|].
  rewrite Hfix in Hlen, Hcons.
  exists (generated_page fastReveal pw p2).
  unfold bind. rewrite Hchange. split; [exact Hrun|].
  unfold generated_page, consumed in *. rewrite Hcons.
  destruct fastReveal; cbn; repeat split; exact Hlen.
Qed.

Lemma change_then_generate_uses_shown_length_witness :
  exists p' : Page,
    (lengthNumber_onchange ;;; generateHandler true)
      (fresh_page true (repeat 1 16) [] false true false false false
                  "0" "40")
    = Return tt p' /\
    JS.length (lastGenerated p') = 16 /\
    lengthRange p' = "16".
Proof.
  pose (p := fresh_page true (repeat 1 16) []
                        false true false false false "0" "40").
  destruct (change_then_generate_uses_shown_length true p)
    as (p' & Hrun & Hlen & _ & Hlr & _).
  - vm_compute. discriminate.
  - reflexivity.
  - exists p'. repeat split; assumption.
Defined.

(** X26. Without the cryptographic source a successful generation is
    reported on the console only: the fallback warning is logged once per
    character of the password, no alert is shown, and exactly that many
    [Math.random] values are used. *)
Theorem generateHandler_fallback_logs_only (fastReveal : bool) (p : Page) (n : Z) :
  crypto_available p = false ->
  requested_length p = JS.Num n ->
  pool_of p <> "" ->
  (Z.to_nat (clamp_length n) <= List.length (random_draws p))%nat ->
  exists p' : Page,
    generateHandler fastReveal p = Return tt p' /\
    console p'
    = (console p ++ repeat fallback_warning (Z.to_nat (clamp_length n)))%list /\
    alerts p' = alerts p /\
    random_draws p' = skipn (Z.to_nat (clamp_length n)) (random_draws p) /\
    crypto_draws p' = crypto_draws p.
Proof.
  intros Hc Hreq Hne Hlen. pose proof (clamp_length_range n) as Hcl.
  rewrite generateHandler_unfold, handler_length_requested, Hreq.
  set (p1 := set_lengths (JS.to_string (JS.Num (clamp_length n))) p).
  rewrite (generatePlain_nonempty_pool _ p1 Hne).
  destruct (Z.ltb_spec (clamp_length n) 0); [lia|].
  destruct (Z.ltb_spec maxUint (clamp_length n)); [unfold maxUint in *; lia|].
  cbn [orb].
  rewrite (for_fill_fallback _ _ p1 Hc Hlen).
  eexists. split; [reflexivity|].
  unfold generated_page, p1. destruct fastReveal; repeat split.
Qed.

Lemma generateHandler_fallback_logs_only_witness :
  exists p' : Page,
    generateHandler true
      (fresh_page false [] (repeat (1 # 3)%Q 6) false true false false false
                  "6" "6")
    = Return tt p' /\
    console p' = repeat fallback_warning 6 /\
    alerts p' = [] /\
    random_draws p' = [].
Proof.
  pose (p := fresh_page false [] (repeat (1 # 3)%Q 6)
                        false true false false false "6" "6").
  destruct (generateHandler_fallback_logs_only true p 6)
    as (p' & Hrun & Hco & Hal & Hrd & _).
  - reflexivity.
  - reflexivity.
  - vm_compute. discriminate.
  - cbn. lia.
  - exists p'. repeat split; assumption.
Defined.
